(** * The super tiny compiler (TypeScript port): a shallow embedding

    The development follows [src/super-tiny-compiler.ts]: the tokenizer, the
    parser, the traverser, the transformer, the code generator and the
    [compiler] pipeline, and then the properties of each.  The source file
    holds the program twice, once with its comments and once without; the
    two copies are the same code, and the embedding is of both.

    Conventions of the embedding.
    - A JavaScript string is a [string]; each [ascii] stands for the UTF-16
      code unit with the same number (0..255).
    - [input[i]] past the end of a string or an array is [undefined]: the
      index operations return an [option].
    - A [while] loop or a recursion that the source does not bound is run
      with fuel; [OutOfFuel] is not a result of the program, it only says
      that the run was cut.  Engine limits (maximal string length, stack
      depth) are not modelled.
    - A thrown exception ends the run with [Throw]. *)

From Stdlib Require Import Ascii String Arith Lia.
From stdpp Require Import list strings.

Set Warnings "-register-all".

(** ** Outcomes of a run *)

Inductive exn : Type :=
| TypeError (message : string)   (* [throw new TypeError(message)] *)
| UndefinedAccess                (* the engine's own TypeError: a property read,
                                    a call or an iteration on [undefined] or [null] *)
| Error (message : string).      (* [throw Error(message)] *)

Inductive outcome (A : Type) : Type :=
| Return (a : A)
| Throw (e : exn)
| OutOfFuel.

Arguments Return {A} a.
Arguments Throw {A} e.
Arguments OutOfFuel {A}.

Global Instance outcome_ret : MRet outcome := @Return.

Global Instance outcome_bind : MBind outcome := fun A B k m =>
  match m with
  | Return a => k a
  | Throw e => Throw e
  | OutOfFuel => OutOfFuel
  end.

(** ** Tokens *)

Module TokenType.
Inductive t : Type := paren | number | string | name.

Definition eqb (a b : t) : bool :=
  match a, b with
  | paren, paren | number, number | string, string | name, name => true
  | _, _ => false
  end.

(* A numeric enum member prints as its index. *)
Definition toString (a : t) : String.string :=
  match a with
  | paren => "0"
  | number => "1"
  | string => "2"
  | name => "3"
  end.
End TokenType.

Module Token.
Record t : Type := mk { type : TokenType.t; value : string }.
End Token.

(** ** The tokenizer *)

(** The three regular expressions of [re], each a one-character class.
    [\s] is the white space of JavaScript; among the code units 0..255 these
    are the tab, the line feed, the vertical tab, the form feed, the
    carriage return, the space and the no-break space.  [/[a-z]/i] is the
    letters of both cases. *)
Definition WHITESPACE (c : ascii) : bool :=
  match c with
  | "009" | "010" | "011" | "012" | "013" | " " | "160" => true
  | _ => false
  end%char.

Definition NUMBERS (c : ascii) : bool := (("0" <=? c) && (c <=? "9"))%char.

Definition LETTERS (c : ascii) : bool :=
  ((("a" <=? c) && (c <=? "z")) || (("A" <=? c) && (c <=? "Z")))%char.

(** [input[current]]: a one-character string, or [undefined]. *)
Definition char := option ascii.

(** String conversion, as done by [value += char] and by [RegExp.test]. *)
Definition toString (c : char) : string :=
  match c with
  | Some a => String a EmptyString
  | None => "undefined"
  end.

(** [re.test(char)]: the argument is converted to a string, and the class
    matches when some character of that string is in it. *)
Definition test (re : ascii -> bool) (c : char) : bool :=
  existsb re (list_ascii_of_string (toString c)).

Definition lparen : ascii := "("%char.
Definition rparen : ascii := ")"%char.

(** [char === a], for a one-character string [a]. *)
Definition char_is (a : ascii) (c : char) : bool :=
  match c with
  | Some b => Ascii.eqb b a
  | None => false
  end.

(** The double quote. *)
Definition dquote : ascii := "034"%char.

(** The inner loops [while (cond(char)) { value += char; char = input[++current]; }],
    returning the final [current] and [value]. *)
Fixpoint scan (cond : char -> bool) (fuel : nat) (input : string)
    (c : char) (current : nat) (value : string) : outcome (nat * string) :=
  match fuel with
  | O => OutOfFuel
  | S fuel =>
      if cond c
      then scan cond fuel input (String.get (S current) input) (S current)
             (value +:+ toString c)
      else Return (current, value)
  end.

(** The outer loop [while (current < input.length)]. *)
Fixpoint tokenizer_loop (fuel : nat) (input : string) (current : nat)
    (tokens : list Token.t) : outcome (list Token.t) :=
  match fuel with
  | O => OutOfFuel
  | S fuel =>
      if current <? String.length input then
        let c := String.get current input in
        if char_is lparen c || char_is rparen c then
          tokenizer_loop fuel input (S current)
            (tokens ++ [Token.mk TokenType.paren (toString c)])
        else if test WHITESPACE c then
          tokenizer_loop fuel input (S current) tokens
        else if test NUMBERS c then
          '(current, value) ← scan (test NUMBERS) fuel input c current EmptyString;
          tokenizer_loop fuel input current
            (tokens ++ [Token.mk TokenType.number value])
        else if char_is dquote c then
          (* the opening quote is skipped; the loop stops on the closing
             quote, which is not skipped before [continue] *)
          '(current, value) ← scan (fun c => negb (char_is dquote c)) fuel input
                                 (String.get (S current) input) (S current) EmptyString;
          tokenizer_loop fuel input current
            (tokens ++ [Token.mk TokenType.string value])
        else if test LETTERS c then
          '(current, value) ← scan (test LETTERS) fuel input c current EmptyString;
          tokenizer_loop fuel input current
            (tokens ++ [Token.mk TokenType.name value])
        else Throw (TypeError ("I dont know what this char is: " +:+ toString c))
      else Return tokens
  end.

Definition tokenizer (fuel : nat) (input : string) : outcome (list Token.t) :=
  tokenizer_loop fuel input 0 [].

(** ** The AST *)

Module ASTNodeType.
Inductive t : Type :=
| NumberLiteral | StringLiteral | CallExpression | Program
| ExpressionStatement | Identifier.

Definition eqb (a b : t) : bool :=
  match a, b with
  | NumberLiteral, NumberLiteral | StringLiteral, StringLiteral
  | CallExpression, CallExpression | Program, Program
  | ExpressionStatement, ExpressionStatement | Identifier, Identifier => true
  | _, _ => false
  end.
End ASTNodeType.

(** An array that the transformer fills is an object of its own, shared by
    the nodes that hold it; [ref] is its identity (see the transformer). *)
Abbreviation ref := nat (only parsing).

(** The classes that extend [ASTNode].  Every field is [readonly] except
    [_context], which is [undefined] until something is assigned to it. *)
Inductive ASTNode : Type :=
| NumberLiteral (_context : option ref) (value : string)
| StringLiteral (_context : option ref) (value : string)
| CallExpression (_context : option ref) (name : string) (params : list ASTNode)
| ProgramNode (_context : option ref) (body : list ASTNode)
| Identifier (_context : option ref) (name : string)
| JsExpressionStatement (_context : option ref) (expression : ASTNode)
| JsCallExpression (_context : option ref) (callee : ASTNode) (args : list ASTNode).

(** [new C(...)]: the constructors leave [_context] undefined. *)
Definition new_NumberLiteral := NumberLiteral None.
Definition new_StringLiteral := StringLiteral None.
Definition new_CallExpression := CallExpression None.
Definition new_ProgramNode := ProgramNode None.
Definition new_Identifier := Identifier None.
Definition new_JsExpressionStatement := JsExpressionStatement None.
Definition new_JsCallExpression := JsCallExpression None.

(** [node.type]; [JsCallExpression] passes [ASTNodeType.CallExpression] to
    [super], as [CallExpression] does. *)
Definition type (node : ASTNode) : ASTNodeType.t :=
  match node with
  | NumberLiteral _ _ => ASTNodeType.NumberLiteral
  | StringLiteral _ _ => ASTNodeType.StringLiteral
  | CallExpression _ _ _ => ASTNodeType.CallExpression
  | ProgramNode _ _ => ASTNodeType.Program
  | Identifier _ _ => ASTNodeType.Identifier
  | JsExpressionStatement _ _ => ASTNodeType.ExpressionStatement
  | JsCallExpression _ _ _ => ASTNodeType.CallExpression
  end.

Definition _context (node : ASTNode) : option ref :=
  match node with
  | NumberLiteral c _ | StringLiteral c _ | CallExpression c _ _
  | ProgramNode c _ | Identifier c _ | JsExpressionStatement c _
  | JsCallExpression c _ _ => c
  end.

(** [node._context = c] *)
Definition set_context (c : option ref) (node : ASTNode) : ASTNode :=
  match node with
  | NumberLiteral _ value => NumberLiteral c value
  | StringLiteral _ value => StringLiteral c value
  | CallExpression _ name params => CallExpression c name params
  | ProgramNode _ body => ProgramNode c body
  | Identifier _ name => Identifier c name
  | JsExpressionStatement _ expression => JsExpressionStatement c expression
  | JsCallExpression _ callee args => JsCallExpression c callee args
  end.

(** ** The code generator *)

Definition newline : string := String "010"%char EmptyString.
Definition quoted (value : string) : string :=
  String dquote value +:+ String dquote EmptyString.

(** [Array.prototype.join] on an array of strings. *)
Definition join (sep : string) (texts : list string) : string :=
  String.concat sep texts.

(** The [generateJsCode] methods; [CallExpression] inherits the one of
    [ASTNode], which throws. *)
Fixpoint generateJsCode (node : ASTNode) : outcome string :=
  match node with
  | NumberLiteral _ value => Return value
  | StringLiteral _ value => Return (quoted value)
  | CallExpression _ _ _ => Throw (Error "NotImplemented")
  | ProgramNode _ body =>
      texts ← mapM generateJsCode body;
      Return (join newline texts)
  | Identifier _ name => Return name
  | JsExpressionStatement _ expression =>
      text ← generateJsCode expression;
      Return (text +:+ ";")
  | JsCallExpression _ callee args =>
      head ← generateJsCode callee;
      texts ← mapM generateJsCode args;
      Return (head +:+ "(" +:+ join ", " texts +:+ ")")
  end.

Definition codeGenerator (node : ASTNode) : outcome string :=
  generateJsCode node.

(** ** The parser *)

Definition is_paren (value : string) (token : Token.t) : bool :=
  TokenType.eqb (Token.type token) TokenType.paren
  && String.eqb (Token.value token) value.

(** The condition of the argument loop, as written in [walk]. *)
Definition not_closing (token : Token.t) : bool :=
  negb (TokenType.eqb (Token.type token) TokenType.paren)
  || (TokenType.eqb (Token.type token) TokenType.paren
      && negb (String.eqb (Token.value token) ")")).

(** [walk] with the cursor [current] passed in and out, and its argument
    loop [while (...) { node.params.push(walk()); token = tokens[current]; }].
    Reading a field of [tokens[current]] past the end throws. *)
Fixpoint walk (fuel : nat) (tokens : list Token.t) (current : nat)
    : outcome (ASTNode * nat) :=
  match fuel with
  | O => OutOfFuel
  | S fuel =>
      match tokens !! current with
      | None => Throw UndefinedAccess
      | Some token =>
          if TokenType.eqb (Token.type token) TokenType.number then
            Return (new_NumberLiteral (Token.value token), S current)
          else if TokenType.eqb (Token.type token) TokenType.string then
            Return (new_StringLiteral (Token.value token), S current)
          else if is_paren "(" token then
            let current := S current in
            match tokens !! current with
            | None => Throw UndefinedAccess
            | Some token =>
                let name := Token.value token in
                let current := S current in
                '(params, current) ← walk_params fuel tokens current [];
                Return (new_CallExpression name params, S current)
            end
          else Throw (TypeError (TokenType.toString (Token.type token)))
      end
  end
with walk_params (fuel : nat) (tokens : list Token.t) (current : nat)
    (params : list ASTNode) : outcome (list ASTNode * nat) :=
  match fuel with
  | O => OutOfFuel
  | S fuel =>
      match tokens !! current with
      | None => Throw UndefinedAccess
      | Some token =>
          if not_closing token then
            '(node, current) ← walk fuel tokens current;
            walk_params fuel tokens current (params ++ [node])
          else Return (params, current)
      end
  end.

(** The top-level loop [while (current < tokens.length)]. *)
Fixpoint parser_loop (fuel : nat) (tokens : list Token.t) (current : nat)
    (body : list ASTNode) : outcome ASTNode :=
  match fuel with
  | O => OutOfFuel
  | S fuel =>
      if current <? length tokens then
        '(node, current) ← walk fuel tokens current;
        parser_loop fuel tokens current (body ++ [node])
      else Return (new_ProgramNode body)
  end.

Definition parser (fuel : nat) (tokens : list Token.t) : outcome ASTNode :=
  parser_loop fuel tokens 0 [].

(** ** The traverser *)

(** While the transformer runs, the new tree is reachable through arrays
    that are still being filled: [newAst.body] and each [expression.args]
    are held both by a node of the new tree and by the [_context] of a node
    of the old tree.  The store keeps these arrays by reference; a node of
    the new tree holds the identity of its [args], not a copy. *)
Inductive JsObject : Type :=
| ONumberLiteral (value : string)
| OStringLiteral (value : string)
| OJsCallExpression (callee : string) (args : ref)   (* callee: [new Identifier(callee)] *)
| OJsExpressionStatement (expression : JsObject).

Abbreviation Heap := (list (list JsObject)) (only parsing).

(** [[]]: a new array, at the next free identity. *)
Definition alloc (h : Heap) : ref * Heap := (length h, h ++ [[]]).

(** [array.push(o)] *)
Definition push (r : ref) (o : JsObject) (h : Heap) : Heap :=
  alter (fun array => array ++ [o]) r h.

(** A visitor method gets [node] and [parent] and may assign [node._context]
    (the only field that is not [readonly]) and push to arrays; it returns
    the value of [node._context] when it ends. *)
Definition Method : Type :=
  ASTNode -> option ASTNode -> Heap -> outcome (option ref * Heap).

Record Methods : Type := { enter : option Method; exit : option Method }.

Definition Visitor : Type := ASTNodeType.t -> option Methods.

(** [if (methods && methods.enter) methods.enter(node, parent)] *)
Definition invoke (method : option Method) (node : ASTNode)
    (parent : option ASTNode) (h : Heap) : outcome (ASTNode * Heap) :=
  match method with
  | Some f => '(c, h) ← f node parent h; Return (set_context c node, h)
  | None => Return (node, h)
  end.

Section traverseArray.
Variable traverseNode : ASTNode -> option ASTNode -> Heap -> outcome (ASTNode * Heap).

(** [for (const node of nodes) traverseNode(node, parent)]; the nodes are
    returned as the visit leaves them. *)
Fixpoint traverseArray (nodes : list ASTNode) (parent : ASTNode) (h : Heap)
    : outcome (list ASTNode * Heap) :=
  match nodes with
  | [] => Return ([], h)
  | node :: nodes =>
      '(node, h) ← traverseNode node (Some parent) h;
      '(nodes, h) ← traverseArray nodes parent h;
      Return (node :: nodes, h)
  end.
End traverseArray.

Section traverser.
Variable visitor : Visitor.

Fixpoint traverseNode (node : ASTNode) (parent : option ASTNode) (h : Heap)
    : outcome (ASTNode * Heap) :=
  let methods := visitor (type node) in
  '(entered, h) ← invoke (methods ≫= enter) node parent h;
  '(node, h) ←
    match node with
    | ProgramNode _ body =>
        '(body, h) ← traverseArray traverseNode body entered h;
        Return (ProgramNode (_context entered) body, h)
    | CallExpression _ name params =>
        '(params, h) ← traverseArray traverseNode params entered h;
        Return (CallExpression (_context entered) name params, h)
    | JsCallExpression _ _ _ =>
        (* tagged [CallExpression], but [params] is undefined: [for ... of] throws *)
        Throw UndefinedAccess
    | _ => Return (entered, h)
    end;
  invoke (methods ≫= exit) node parent h.

Definition traverser (ast : ASTNode) (h : Heap) : outcome (ASTNode * Heap) :=
  traverseNode ast None h.
End traverser.

(** ** The transformer *)

(** [parent._context.push(o)] *)
Definition push_to_context (parent : option ASTNode) (o : JsObject) (h : Heap)
    : outcome Heap :=
  match parent with
  | None => Throw UndefinedAccess
  | Some p =>
      match _context p with
      | None => Throw UndefinedAccess
      | Some r => Return (push r o h)
      end
  end.

Definition enter_NumberLiteral : Method := fun node parent h =>
  match node with
  | NumberLiteral _ value =>
      h ← push_to_context parent (ONumberLiteral value) h;
      Return (_context node, h)
  | _ => Throw UndefinedAccess   (* not reached: the tag selects the method *)
  end.

Definition enter_StringLiteral : Method := fun node parent h =>
  match node with
  | StringLiteral _ value =>
      h ← push_to_context parent (OStringLiteral value) h;
      Return (_context node, h)
  | _ => Throw UndefinedAccess   (* not reached: the tag selects the method *)
  end.

Definition enter_CallExpression : Method := fun node parent h =>
  match node with
  | CallExpression _ name _ =>
      let '(args, h) := alloc h in
      let expression := OJsCallExpression name args in
      (* node._context = expression.args *)
      match parent with
      | None => Throw UndefinedAccess
      | Some p =>
          h ← (if negb (ASTNodeType.eqb (type p) ASTNodeType.CallExpression)
               then push_to_context parent (OJsExpressionStatement expression) h
               else push_to_context parent expression h);
          Return (Some args, h)
      end
  | _ =>
      (* a [JsCallExpression] has the same tag but neither [name] nor
         [params]; the traversal of its [params] throws whatever happens
         here, so the run ends with the engine's error in any case *)
      Throw UndefinedAccess
  end.

Definition transformer_visitor : Visitor := fun tag =>
  match tag with
  | ASTNodeType.NumberLiteral =>
      Some {| enter := Some enter_NumberLiteral; exit := None |}
  | ASTNodeType.StringLiteral =>
      Some {| enter := Some enter_StringLiteral; exit := None |}
  | ASTNodeType.CallExpression =>
      Some {| enter := Some enter_CallExpression; exit := None |}
  | _ => None
  end.

(** The tree that is reachable from an object of the store, read once the
    arrays are no longer written. *)
Fixpoint snapshot (fuel : nat) (h : Heap) (o : JsObject) : outcome ASTNode :=
  match fuel with
  | O => OutOfFuel
  | S fuel =>
      match o with
      | ONumberLiteral value => Return (new_NumberLiteral value)
      | OStringLiteral value => Return (new_StringLiteral value)
      | OJsCallExpression callee args =>
          args ← mapM (snapshot fuel h) (default [] (h !! args));
          Return (new_JsCallExpression (new_Identifier callee) args)
      | OJsExpressionStatement expression =>
          expression ← snapshot fuel h expression;
          Return (new_JsExpressionStatement expression)
      end
  end.

(** What a call of [transformer] leaves: the tree it returns, the tree it
    was given, and the arrays. *)
Record Transformed : Type :=
  { newAst : ASTNode; ast_after : ASTNode; heap_after : Heap }.

(** The body of [transformer(ast)], run when the arrays [h] already exist. *)
Definition transformer_run (h : Heap) (ast : ASTNode) : outcome Transformed :=
  let '(body, h) := alloc h in          (* newAst = new ProgramNode([]) *)
  let ast := set_context (Some body) ast in   (* ast._context = newAst.body *)
  '(ast, h) ← traverser transformer_visitor ast h;
  body ← mapM (snapshot (2 * length h + 2) h) (default [] (h !! body));
  Return {| newAst := new_ProgramNode body; ast_after := ast; heap_after := h |}.

(** [transformer(ast)]: what the caller gets is [newAst]. *)
Definition transformer (h : Heap) (ast : ASTNode) : outcome ASTNode :=
  t ← transformer_run h ast;
  Return (newAst t).

(** ** The pipeline *)

Definition compiler (h : Heap) (fuel : nat) (input : string) : outcome string :=
  tokens ← tokenizer fuel input;
  ast ← parser fuel tokens;
  newAst ← transformer h ast;
  codeGenerator newAst.

(** * What the properties speak of

    The definitions from here to the properties are not parts of the
    program: they are the predicates and the expected results that the
    statements need. *)

(** ** Predicates used by the statements *)

(** The trees the parser builds: literals and calls below one [ProgramNode]. *)
Fixpoint source_expression (node : ASTNode) : bool :=
  match node with
  | NumberLiteral _ _ | StringLiteral _ _ => true
  | CallExpression _ _ params => forallb source_expression params
  | _ => false
  end.

(** The trees of the target language: what [transformer] builds. *)
Fixpoint target_node (node : ASTNode) : bool :=
  match node with
  | NumberLiteral _ _ | StringLiteral _ _ | Identifier _ _ => true
  | JsCallExpression _ (Identifier _ _) args => forallb target_node args
  | JsExpressionStatement _ expression => target_node expression
  | ProgramNode _ body => forallb target_node body
  | _ => false
  end.

(** A character the tokenizer has a rule for. *)
Definition recognized (a : ascii) : bool :=
  Ascii.eqb a lparen || Ascii.eqb a rparen || WHITESPACE a || NUMBERS a
  || Ascii.eqb a dquote || LETTERS a.

Definition returns {A : Type} (m : outcome A) : bool :=
  match m with Return _ => true | _ => false end.

Definition throws {A : Type} (m : outcome A) : bool :=
  match m with Throw _ => true | _ => false end.

(** The run was not cut: it returned or threw. *)
Definition finished {A : Type} (m : outcome A) : bool :=
  match m with OutOfFuel => false | _ => true end.

(** The number of [CallExpression] nodes of a source expression: the number
    of arrays that the transformer creates for it. *)
Fixpoint calls (node : ASTNode) : nat :=
  match node with
  | CallExpression _ _ params => S (list_sum (map calls params))
  | _ => 0
  end.

Definition calls_in (nodes : list ASTNode) : nat := list_sum (map calls nodes).

(** The source expression with the [_context] of its calls set to the
    references [next], [next + 1], ... in the order of the visit;
    literals are left as they are. *)
Fixpoint with_slots (next : ref) (node : ASTNode) : ASTNode :=
  match node with
  | CallExpression _ name params =>
      CallExpression (Some next) name
        ((fix go (next : ref) (nodes : list ASTNode) : list ASTNode :=
            match nodes with
            | [] => []
            | node :: nodes => with_slots next node :: go (next + calls node) nodes
            end) (S next) params)
  | _ => node
  end.

Fixpoint with_slots_in (next : ref) (nodes : list ASTNode) : list ASTNode :=
  match nodes with
  | [] => []
  | node :: nodes => with_slots next node :: with_slots_in (next + calls node) nodes
  end.

(** The tree without its [_context] fields: tags, payloads and children. *)
Fixpoint structure (node : ASTNode) : ASTNode :=
  match node with
  | NumberLiteral _ value => NumberLiteral None value
  | StringLiteral _ value => StringLiteral None value
  | CallExpression _ name params => CallExpression None name (map structure params)
  | ProgramNode _ body => ProgramNode None (map structure body)
  | Identifier _ name => Identifier None name
  | JsExpressionStatement _ expression => JsExpressionStatement None (structure expression)
  | JsCallExpression _ callee args =>
      JsCallExpression None (structure callee) (map structure args)
  end.

(** The [_context] fields, in the order of the visit: those of the program
    and of its calls, and those of the literals. *)
Fixpoint call_slots (node : ASTNode) : list (option ref) :=
  match node with
  | CallExpression c _ params => c :: concat (map call_slots params)
  | ProgramNode c body => c :: concat (map call_slots body)
  | _ => []
  end.

Fixpoint literal_slots (node : ASTNode) : list (option ref) :=
  match node with
  | NumberLiteral c _ | StringLiteral c _ => [c]
  | CallExpression _ _ params => concat (map literal_slots params)
  | ProgramNode _ body => concat (map literal_slots body)
  | _ => []
  end.

(** Expected result: the target expression that mirrors a source
    expression; a literal is copied, a call keeps its name and its
    arguments in order. *)
Fixpoint mirror (node : ASTNode) : ASTNode :=
  match node with
  | NumberLiteral _ value => new_NumberLiteral value
  | StringLiteral _ value => new_StringLiteral value
  | CallExpression _ name params =>
      new_JsCallExpression (new_Identifier name) (map mirror params)
  | _ => node
  end.

(** Expected result: what stands for a source expression in the array of
    its parent; a call below a node that is not a call is wrapped in a
    statement. *)
Definition placed (below_call : bool) (node : ASTNode) : ASTNode :=
  match node with
  | CallExpression _ _ _ =>
      if below_call then mirror node else new_JsExpressionStatement (mirror node)
  | _ => mirror node
  end.

(** Two stores agree on the arrays [lo], ..., [hi - 1]. *)
Definition agree (lo hi : ref) (h1 h2 : Heap) : Prop :=
  forall r, lo <= r < hi -> h1 !! r = h2 !! r.

(** [parent.type === ASTNodeType.CallExpression] *)
Definition below_call (parent : ASTNode) : bool :=
  ASTNodeType.eqb (type parent) ASTNodeType.CallExpression.

(** The fuel that reading back [n] nested calls takes. *)
Definition reading (below : bool) (n : nat) : nat :=
  n + (if below then 1 else 2).

(** Expected result: the text of a source expression in the target syntax,
    and the text of a top-level expression; only a call gets the statement
    terminator. *)
Fixpoint expression_text (node : ASTNode) : string :=
  match node with
  | NumberLiteral _ value => value
  | StringLiteral _ value => quoted value
  | CallExpression _ name params =>
      name +:+ "(" +:+ join ", " (map expression_text params) +:+ ")"
  | _ => EmptyString
  end.

Definition statement_text (node : ASTNode) : string :=
  match node with
  | CallExpression _ _ _ => expression_text node +:+ ";"
  | _ => expression_text node
  end.

(** No [JsExpressionStatement] anywhere in the tree. *)
Fixpoint statement_free (node : ASTNode) : bool :=
  match node with
  | JsExpressionStatement _ _ => false
  | JsCallExpression _ callee args =>
      statement_free callee && forallb statement_free args
  | CallExpression _ _ params => forallb statement_free params
  | ProgramNode _ body => forallb statement_free body
  | _ => true
  end.

(** The visit of the transformer. *)
Abbreviation visit := (traverseNode transformer_visitor).

(** What the visit of [node] below [parent], whose [_context] is the array
    [rp], does to the store [h]: one object is pushed to [rp], the arrays of
    the calls of [node] are added, nothing else changes; and the object
    reads back as the expression placed for [node]. *)
Definition visited (parent : ASTNode) (rp : ref) (h : Heap) (node : ASTNode)
    (node' : ASTNode) (h' : Heap) : Prop :=
  node' = with_slots (length h) node
  /\ length h' = length h + calls node
  /\ (forall r, r < length h -> r <> rp -> h' !! r = h !! r)
  /\ exists o,
      (forall array, h !! rp = Some array -> h' !! rp = Some (array ++ [o]))
      /\ forall h'' fuel,
          reading (below_call parent) (calls node) <= fuel ->
          agree (length h) (length h') h' h'' ->
          snapshot fuel h'' o = Return (placed (below_call parent) node).

Definition visited_in (parent : ASTNode) (rp : ref) (h : Heap) (nodes : list ASTNode)
    (nodes' : list ASTNode) (h' : Heap) : Prop :=
  nodes' = with_slots_in (length h) nodes
  /\ length h' = length h + calls_in nodes
  /\ (forall r, r < length h -> r <> rp -> h' !! r = h !! r)
  /\ exists os,
      (forall array, h !! rp = Some array -> h' !! rp = Some (array ++ os))
      /\ forall h'' fuel,
          reading (below_call parent) (calls_in nodes) <= fuel ->
          agree (length h) (length h') h' h'' ->
          Forall2 (fun o node =>
            snapshot fuel h'' o = Return (placed (below_call parent) node)) os nodes.

Definition visits (node : ASTNode) : Prop :=
  forall parent rp h, _context parent = Some rp -> rp < length h ->
  exists node' h',
    visit node (Some parent) h = Return (node', h')
    /\ visited parent rp h node node' h'.

(** ** Texts of calls over numbers *)

(** A text is spelled by its tokens, each after some whitespace, and the
    whitespace that ends it. *)
Fixpoint spell (items : list (string * Token.t)) (tail : string) : string :=
  match items with
  | [] => tail
  | (space, token) :: items => space +:+ Token.value token +:+ spell items tail
  end.

Definition all (re : ascii -> bool) (s : string) : bool :=
  forallb re (list_ascii_of_string s).

(** A parenthesis, a digit run or a letter run.  String literals are left
    out: the tokenizer does not return on them. *)
Definition lexeme (token : Token.t) : bool :=
  match Token.type token with
  | TokenType.paren =>
      String.eqb (Token.value token) "(" || String.eqb (Token.value token) ")"
  | TokenType.number =>
      negb (String.eqb (Token.value token) EmptyString) && all NUMBERS (Token.value token)
  | TokenType.name =>
      negb (String.eqb (Token.value token) EmptyString) && all LETTERS (Token.value token)
  | TokenType.string => false
  end.

(** What follows a digit run is not a digit; what follows a letter run is a
    character that is not a letter. *)
Definition ends (token : Token.t) (next : char) : bool :=
  match Token.type token with
  | TokenType.number => negb (test NUMBERS next)
  | TokenType.name => negb (test LETTERS next)
  | _ => true
  end.

Fixpoint well_spelled (items : list (string * Token.t)) (tail : string) : bool :=
  match items with
  | [] => all WHITESPACE tail
  | (space, token) :: items =>
      all WHITESPACE space && lexeme token
      && ends token (String.get 0 (spell items tail))
      && well_spelled items tail
  end.

(** The tokens of a source expression. *)
Fixpoint tokens_of (node : ASTNode) : list Token.t :=
  match node with
  | NumberLiteral _ value => [Token.mk TokenType.number value]
  | StringLiteral _ value => [Token.mk TokenType.string value]
  | CallExpression _ name params =>
      Token.mk TokenType.paren "(" :: Token.mk TokenType.name name
      :: flat_map tokens_of params ++ [Token.mk TokenType.paren ")"]
  | _ => []
  end.

(** The text from the cursor on is [suffix]. *)
Definition at_suffix (input : string) (current : nat) (suffix : string) : Prop :=
  String.length input = current + String.length suffix
  /\ forall i, String.get (current + i) input = String.get i suffix.

(** The tokens from the cursor on start with [expected]. *)
Definition at_tokens (tokens : list Token.t) (current : nat)
    (expected : list Token.t) : Prop :=
  forall i token, expected !! i = Some token -> tokens !! (current + i) = Some token.

(** [walk] reads the tokens of [node] back. *)
Definition walks (node : ASTNode) : Prop :=
  forall fuel tokens current,
    at_tokens tokens current (tokens_of node) ->
    length (tokens_of node) <= fuel ->
    walk fuel tokens current
    = Return (structure node, current + length (tokens_of node)).

(** The exceptions of the parser: the one it throws itself, with the kind
    of the token, and the one of the engine. *)
Definition parse_error (e : exn) : Prop :=
  e = UndefinedAccess \/ exists kind, e = TypeError (TokenType.toString kind).

(** A token that cannot start an expression: a name, or a parenthesis token
    whose text is not the opening parenthesis. *)
Definition stray (token : Token.t) : bool :=
  negb (TokenType.eqb (Token.type token) TokenType.number)
  && negb (TokenType.eqb (Token.type token) TokenType.string)
  && negb (is_paren "(" token).

(** ** Visitors for the statements about the traverser *)

(** A tree that [traverseNode] can walk: below programs and calls it meets
    no [JsCallExpression], whose [params] is undefined. *)
Fixpoint traversable (node : ASTNode) : bool :=
  match node with
  | ProgramNode _ body => forallb traversable body
  | CallExpression _ _ params => forallb traversable params
  | JsCallExpression _ _ _ => false
  | _ => true
  end.

(** The visitor [{}]. *)
Definition no_methods : Visitor := fun _ => None.

Definition tag_text (tag : ASTNodeType.t) : string :=
  match tag with
  | ASTNodeType.NumberLiteral => "NumberLiteral"
  | ASTNodeType.StringLiteral => "StringLiteral"
  | ASTNodeType.CallExpression => "CallExpression"
  | ASTNodeType.Program => "Program"
  | ASTNodeType.ExpressionStatement => "ExpressionStatement"
  | ASTNodeType.Identifier => "Identifier"
  end.

(** What a logging method writes of its arguments: the tag of [node] and
    the tag of [parent], or [null]. *)
Definition mark (node : ASTNode) (parent : option ASTNode) : string :=
  tag_text (type node) +:+ " in "
  +:+ match parent with
      | Some p => tag_text (type p)
      | None => "null"
      end.

(** A visitor with an [enter] and an [exit] method for every tag; each
    pushes a mark of its arguments to the array [log], [enter] as a number
    literal and [exit] as a string literal, and assigns nothing. *)
Definition log_enter (log : ref) : Method := fun node parent h =>
  Return (_context node, push log (ONumberLiteral (mark node parent)) h).

Definition log_exit (log : ref) : Method := fun node parent h =>
  Return (_context node, push log (OStringLiteral (mark node parent)) h).

Definition logging (log : ref) : Visitor := fun _ =>
  Some {| enter := Some (log_enter log); exit := Some (log_exit log) |}.

(** Expected result: the marks of a depth-first walk, a node's [enter]
    before its children, in order, and its [exit] after them. *)
Fixpoint expected_log (parent : option ASTNode) (node : ASTNode) : list JsObject :=
  ONumberLiteral (mark node parent)
  :: match node with
     | ProgramNode _ body => flat_map (expected_log (Some node)) body
     | CallExpression _ _ params => flat_map (expected_log (Some node)) params
     | _ => []
     end
  ++ [OStringLiteral (mark node parent)].

Definition is_literal (node : ASTNode) : bool :=
  match node with
  | NumberLiteral _ _ | StringLiteral _ _ => true
  | _ => false
  end.

Definition is_statement (node : ASTNode) : bool :=
  match node with
  | JsExpressionStatement _ _ => true
  | _ => false
  end.

(** The object that the transformer pushes for a literal. *)
Definition literal_object (node : ASTNode) : list JsObject :=
  match node with
  | NumberLiteral _ value => [ONumberLiteral value]
  | StringLiteral _ value => [OStringLiteral value]
  | _ => []
  end.

(** ** The sample of the test suite *)

Definition sample_input : string := "(add 2 (subtract 4 2))".

Definition sample_tokens : list Token.t :=
  [Token.mk TokenType.paren "("; Token.mk TokenType.name "add";
   Token.mk TokenType.number "2"; Token.mk TokenType.paren "(";
   Token.mk TokenType.name "subtract"; Token.mk TokenType.number "4";
   Token.mk TokenType.number "2"; Token.mk TokenType.paren ")";
   Token.mk TokenType.paren ")"].

Definition sample_ast : ASTNode :=
  new_ProgramNode
    [new_CallExpression "add"
       [new_NumberLiteral "2";
        new_CallExpression "subtract"
          [new_NumberLiteral "4"; new_NumberLiteral "2"]]].

Definition sample_newAst : ASTNode :=
  new_ProgramNode
    [new_JsExpressionStatement
       (new_JsCallExpression (new_Identifier "add")
          [new_NumberLiteral "2";
           new_JsCallExpression (new_Identifier "subtract")
             [new_NumberLiteral "4"; new_NumberLiteral "2"]])].

Definition sample_output : string := "add(2, subtract(4, 2));".

(** The sample spelled with other whitespace: two spaces, a line feed, a
    tab, and a space at the end. *)
Definition sample_items : list (string * Token.t) :=
  [(EmptyString, Token.mk TokenType.paren "(");
   (EmptyString, Token.mk TokenType.name "add");
   ("  ", Token.mk TokenType.number "2");
   (newline, Token.mk TokenType.paren "(");
   (EmptyString, Token.mk TokenType.name "subtract");
   (String "009"%char EmptyString, Token.mk TokenType.number "4");
   (" ", Token.mk TokenType.number "2");
   (EmptyString, Token.mk TokenType.paren ")");
   (" ", Token.mk TokenType.paren ")")].

(** Inputs on which the stages part from what is asked of them. *)
Definition string_call_input : string := "(add " +:+ quoted "x" +:+ " 1)".
Definition open_string_input : string := String dquote "abc".
Definition name_input : string := "abc".
Definition number_call_input : string := "(2 3)".
Definition number_call_tokens : list Token.t :=
  [Token.mk TokenType.paren "("; Token.mk TokenType.number "2";
   Token.mk TokenType.number "3"; Token.mk TokenType.paren ")"].
Definition open_call_tokens : list Token.t := [Token.mk TokenType.paren "("].
Definition unclosed_call_tokens : list Token.t :=
  [Token.mk TokenType.paren "("; Token.mk TokenType.name "add";
   Token.mk TokenType.number "2"].

(** * Properties *)

(** ** Strings, lists and outcomes *)

Lemma get_past_end (s : string) (n : nat) :
  String.length s <= n -> String.get n s = None.
Proof.
  revert n. induction s as [|a s IH]; intros [|n] Hn; simpl in *; try reflexivity.
  - lia.
  - apply IH. lia.
Qed.

Lemma get_defined (s : string) (n : nat) :
  n < String.length s -> exists a, String.get n s = Some a.
Proof.
  revert n. induction s as [|a s IH]; intros [|n] Hn; simpl in *; try lia.
  - exists a. reflexivity.
  - apply IH. lia.
Qed.

Lemma get_in_range (s : string) (n : nat) (a : ascii) :
  String.get n s = Some a -> n < String.length s.
Proof.
  intros Hget. destruct (Nat.lt_ge_cases n (String.length s)) as [Hlt|Hge]; [exact Hlt|].
  rewrite (get_past_end s n Hge) in Hget. discriminate.
Qed.

Lemma get_In (s : string) (n : nat) (a : ascii) :
  String.get n s = Some a -> In a (list_ascii_of_string s).
Proof.
  revert n. induction s as [|b s IH]; intros [|n] Hget; simpl in *; try discriminate.
  - left. congruence.
  - right. apply (IH n). exact Hget.
Qed.

Lemma append_nil (s : string) : EmptyString +:+ s = s.
Proof. reflexivity. Qed.

Lemma append_cons (a : ascii) (s1 s2 : string) :
  String a s1 +:+ s2 = String a (s1 +:+ s2).
Proof. reflexivity. Qed.

Lemma append_empty (s : string) : s +:+ EmptyString = s.
Proof.
  induction s as [|a s IH]; [reflexivity|]. rewrite append_cons, IH. reflexivity.
Qed.

Lemma append_assoc (s1 s2 s3 : string) : (s1 +:+ s2) +:+ s3 = s1 +:+ s2 +:+ s3.
Proof.
  induction s1 as [|a s1 IH]; [reflexivity|]. rewrite !append_cons, IH. reflexivity.
Qed.

Lemma length_append (s1 s2 : string) :
  String.length (s1 +:+ s2) = String.length s1 + String.length s2.
Proof.
  induction s1 as [|a s1 IH]; [reflexivity|]. rewrite append_cons. simpl.
  rewrite IH. reflexivity.
Qed.

Lemma bind_finished {A B : Type} (m : outcome A) (k : A -> outcome B) :
  finished (m ≫= k) = true ->
  finished m = true /\ forall a, m = Return a -> finished (k a) = true.
Proof.
  destruct m as [a| |]; cbn; intros H; try discriminate; split; try reflexivity.
  - intros a' [= <-]. exact H.
  - intros a' [=].
Qed.

Lemma bind_unit {A B : Type} (a : A) (k : A -> outcome B) : Return a ≫= k = k a.
Proof. reflexivity. Qed.

Lemma bind_returns {A B : Type} (m : outcome A) (k : A -> outcome B) (b : B) :
  m ≫= k = Return b -> exists a, m = Return a /\ k a = Return b.
Proof. destruct m as [a| |]; cbn; intros H; try discriminate. exists a. auto. Qed.

Lemma cut {A : Type} (m : outcome A) :
  returns m = false -> throws m = false -> m = OutOfFuel.
Proof. destruct m; simpl; congruence. Qed.

Lemma mapM_returns {A B : Type} (f : A -> outcome B) (l : list A) (k : list B) :
  Forall2 (fun x y => f x = Return y) l k -> mapM f l = Return k.
Proof.
  induction 1 as [|x y l k Hxy _ IH]; [reflexivity|].
  cbn. rewrite Hxy. cbn. fold (mapM f l). rewrite IH. reflexivity.
Qed.

Lemma mapM_total {A B : Type} (f : A -> outcome B) (l : list A) :
  Forall (fun x => returns (f x) = true) l -> returns (mapM f l) = true.
Proof.
  induction 1 as [|x l Hx _ IH]; [reflexivity|].
  cbn. destruct (f x); try discriminate. cbn. fold (mapM f l).
  destruct (mapM f l); try discriminate. reflexivity.
Qed.

(** ** Induction on source and on target trees *)

Lemma source_expression_ind (P : ASTNode -> Prop) :
  (forall c value, P (NumberLiteral c value)) ->
  (forall c value, P (StringLiteral c value)) ->
  (forall c name params,
     forallb source_expression params = true -> Forall P params ->
     P (CallExpression c name params)) ->
  forall node, source_expression node = true -> P node.
Proof.
  intros Hnum Hstr Hcall. fix IH 1.
  intros [c v|c v|c name params|c body|c name|c e|c callee args] Hsrc;
    try discriminate.
  - apply Hnum.
  - apply Hstr.
  - apply Hcall; [exact Hsrc|]. simpl in Hsrc.
    induction params as [|p params IHparams]; constructor.
    + apply IH. simpl in Hsrc. apply andb_prop in Hsrc. apply Hsrc.
    + apply IHparams. simpl in Hsrc. apply andb_prop in Hsrc. apply Hsrc.
Qed.

Lemma target_node_ind (P : ASTNode -> Prop) :
  (forall c value, P (NumberLiteral c value)) ->
  (forall c value, P (StringLiteral c value)) ->
  (forall c name, P (Identifier c name)) ->
  (forall c c' name args,
     Forall P args -> P (JsCallExpression c (Identifier c' name) args)) ->
  (forall c expression, P expression -> P (JsExpressionStatement c expression)) ->
  (forall c body, Forall P body -> P (ProgramNode c body)) ->
  forall node, target_node node = true -> P node.
Proof.
  intros Hnum Hstr Hid Hcall Hstmt Hprog. fix IH 1.
  intros [c v|c v|c name params|c body|c name|c e|c callee args] Htarget;
    try discriminate.
  - apply Hnum.
  - apply Hstr.
  - apply Hprog. simpl in Htarget.
    induction body as [|p body IHbody]; constructor;
      simpl in Htarget; apply andb_prop in Htarget.
    + apply IH. apply Htarget.
    + apply IHbody. apply Htarget.
  - apply Hid.
  - apply Hstmt. apply IH. exact Htarget.
  - destruct callee as [| | | |c' name| |]; try discriminate.
    apply Hcall. simpl in Htarget.
    induction args as [|p args IHargs]; constructor;
      simpl in Htarget; apply andb_prop in Htarget.
    + apply IH. apply Htarget.
    + apply IHargs. apply Htarget.
Qed.

(** ** The tokenizer: fuel *)

Lemma scan_fuel cond fuel fuel' input c current value :
  fuel <= fuel' ->
  finished (scan cond fuel input c current value) = true ->
  scan cond fuel' input c current value = scan cond fuel input c current value.
Proof.
  revert fuel' c current value.
  induction fuel as [|fuel IH]; intros fuel' c current value Hle Hfin; simpl in *.
  - discriminate.
  - destruct fuel' as [|fuel']; [lia|]. simpl.
    destruct (cond c); [|reflexivity].
    apply IH; [lia|exact Hfin].
Qed.

Lemma tokenizer_loop_fuel fuel fuel' input current tokens :
  fuel <= fuel' ->
  finished (tokenizer_loop fuel input current tokens) = true ->
  tokenizer_loop fuel' input current tokens = tokenizer_loop fuel input current tokens.
Proof.
  revert fuel' current tokens.
  induction fuel as [|fuel IH]; intros fuel' current tokens Hle Hfin; simpl in *.
  - discriminate.
  - destruct fuel' as [|fuel']; [lia|]. simpl.
    assert (Hle' : fuel <= fuel') by lia.
    repeat match goal with
    | |- (if ?b then _ else _) = _ => destruct b
    | |- tokenizer_loop _ _ _ _ = tokenizer_loop _ _ _ _ =>
        apply IH; [exact Hle'|solve [assumption | simpl in *; assumption]]
    | H : finished (?m ≫= _) = true |- _ ≫= _ = ?m ≫= _ =>
        let Hm := fresh "Hm" in let Hk := fresh "Hk" in
        destruct (bind_finished _ _ H) as [Hm Hk];
        rewrite (scan_fuel _ fuel fuel') by (try exact Hle'; exact Hm);
        clear H; destruct m as [[? ?]| |]; cbn in *; [specialize (Hk _ eq_refl)| |]
    | H : forall a, Return ?x = Return a -> finished _ = true |- _ =>
        specialize (H _ eq_refl); cbn in H
    | |- _ => reflexivity
    end.
Qed.

Lemma tokenizer_fuel fuel fuel' input :
  fuel <= fuel' -> finished (tokenizer fuel input) = true ->
  tokenizer fuel' input = tokenizer fuel input.
Proof. apply tokenizer_loop_fuel. Qed.

(** ** The tokenizer: the inner loops *)

Lemma test_defined re a : test re (Some a) = re a.
Proof. unfold test. simpl. apply orb_false_r. Qed.

(** A loop whose condition holds from the cursor on, and past the end. *)
Lemma scan_forever cond fuel input current value :
  (forall j, current <= j -> cond (String.get j input) = true) ->
  scan cond fuel input (String.get current input) current value = OutOfFuel.
Proof.
  revert current value.
  induction fuel as [|fuel IH]; intros current value Hcond; simpl; [reflexivity|].
  rewrite (Hcond current) by lia. apply IH. intros j Hj. apply Hcond. lia.
Qed.

Lemma scan_never_throws cond fuel input c current value :
  throws (scan cond fuel input c current value) = false.
Proof.
  revert c current value.
  induction fuel as [|fuel IH]; intros c current value; simpl; [reflexivity|].
  destruct (cond c); [apply IH|reflexivity].
Qed.

(** Where a loop stops: the cursor has only moved forward, over characters
    that satisfy the condition, to one that does not. *)
Lemma scan_stops cond fuel input current value q v :
  scan cond fuel input (String.get current input) current value = Return (q, v) ->
  current <= q /\ cond (String.get q input) = false
  /\ forall j, current <= j < q -> cond (String.get j input) = true.
Proof.
  revert current value.
  induction fuel as [|fuel IH]; intros current value Hscan; simpl in Hscan; [discriminate|].
  destruct (cond (String.get current input)) eqn:Hc.
  - apply IH in Hscan as (Hle & Hq & Hbetween).
    split; [lia|]. split; [exact Hq|].
    intros j Hj. destruct (decide (j = current)) as [->|Hne]; [exact Hc|].
    apply Hbetween. lia.
  - injection Hscan as <- <-. split; [lia|]. split; [exact Hc|]. intros j Hj. lia.
Qed.

Lemma scan_ends cond input p :
  cond (String.get p input) = false ->
  forall fuel current value,
    current <= p -> p - current < fuel ->
    exists q v,
      scan cond fuel input (String.get current input) current value = Return (q, v)
      /\ q <= p.
Proof.
  intros Hp. induction fuel as [|fuel IH]; intros current value Hle Hfuel; [lia|].
  simpl. destruct (cond (String.get current input)) eqn:Hc.
  - assert (current <> p) by congruence.
    apply IH; lia.
  - exists current, value. split; [reflexivity|exact Hle].
Qed.

(** The classes are disjoint. *)
Lemma class_of_whitespace a :
  WHITESPACE a = true ->
  Ascii.eqb a lparen = false /\ Ascii.eqb a rparen = false.
Proof. destruct a as [[] [] [] [] [] [] [] []]; try discriminate; auto. Qed.

Lemma class_of_digit a :
  NUMBERS a = true ->
  Ascii.eqb a lparen = false /\ Ascii.eqb a rparen = false /\ WHITESPACE a = false.
Proof. destruct a as [[] [] [] [] [] [] [] []]; try discriminate; auto. Qed.

Lemma class_of_letter a :
  LETTERS a = true ->
  Ascii.eqb a lparen = false /\ Ascii.eqb a rparen = false /\ WHITESPACE a = false
  /\ NUMBERS a = false /\ Ascii.eqb a dquote = false.
Proof. destruct a as [[] [] [] [] [] [] [] []]; try discriminate; auto 6. Qed.

(** ** The tokenizer: texts on which no run returns *)

(** A double quote at or after the cursor is reached as an opening quote;
    the scan for the closing quote either runs past the end or stops on a
    quote that the outer loop then reads as an opening quote again. *)
Lemma tokenizer_loop_quote_ahead fuel input current tokens i :
  current <= i -> String.get i input = Some dquote ->
  returns (tokenizer_loop fuel input current tokens) = false.
Proof.
  revert current tokens i.
  induction fuel as [|fuel IH]; intros current tokens i Hle Hi; simpl; [reflexivity|].
  pose proof (get_in_range _ _ _ Hi) as Hrange.
  destruct (Nat.ltb_spec current (String.length input)) as [Hlt|Hge]; [|lia].
  destruct (char_is lparen (String.get current input)
            || char_is rparen (String.get current input)) eqn:Hparen.
  { apply (IH _ _ i); [|exact Hi].
    destruct (decide (i = current)) as [->|]; [|lia].
    rewrite Hi in Hparen. discriminate. }
  destruct (test WHITESPACE (String.get current input)) eqn:Hws.
  { apply (IH _ _ i); [|exact Hi].
    destruct (decide (i = current)) as [->|]; [|lia].
    rewrite Hi in Hws. discriminate. }
  destruct (test NUMBERS (String.get current input)) eqn:Hnum.
  { destruct (scan (test NUMBERS) fuel input _ current EmptyString)
      as [[q v]| |] eqn:Hscan; cbn; try reflexivity.
    apply scan_stops in Hscan as (_ & _ & Hbetween).
    apply (IH _ _ i); [|exact Hi].
    destruct (Nat.le_gt_cases q i) as [|Hlt']; [assumption|].
    specialize (Hbetween i ltac:(lia)). rewrite Hi in Hbetween. discriminate. }
  destruct (char_is dquote (String.get current input)) eqn:Hquote.
  { destruct (scan _ fuel input _ (S current) EmptyString)
      as [[q v]| |] eqn:Hscan; cbn; try reflexivity.
    apply scan_stops in Hscan as (_ & Hq & _).
    destruct (String.get q input) as [a|] eqn:Hget; [|discriminate].
    simpl in Hq. apply negb_false_iff, Ascii.eqb_eq in Hq as ->.
    apply (IH _ _ q); [lia|exact Hget]. }
  destruct (test LETTERS (String.get current input)) eqn:Hlet.
  { destruct (scan (test LETTERS) fuel input _ current EmptyString)
      as [[q v]| |] eqn:Hscan; cbn; try reflexivity.
    apply scan_stops in Hscan as (_ & _ & Hbetween).
    apply (IH _ _ i); [|exact Hi].
    destruct (Nat.le_gt_cases q i) as [|Hlt']; [assumption|].
    specialize (Hbetween i ltac:(lia)). rewrite Hi in Hbetween. discriminate. }
  reflexivity.
Qed.

(** The tokenizer throws only on a character it has no rule for. *)
Lemma tokenizer_loop_recognized fuel input current tokens :
  (forall i a, String.get i input = Some a -> recognized a = true) ->
  throws (tokenizer_loop fuel input current tokens) = false.
Proof.
  intros Hrec. revert current tokens.
  induction fuel as [|fuel IH]; intros current tokens; simpl; [reflexivity|].
  destruct (Nat.ltb_spec current (String.length input)) as [Hlt|Hge]; [|reflexivity].
  destruct (String.get current input) as [a|] eqn:Hget.
  2:{ destruct (get_defined input current Hlt) as [a Ha]. congruence. }
  specialize (Hrec _ _ Hget). unfold recognized in Hrec.
  rewrite !test_defined. simpl char_is.
  destruct (Ascii.eqb a lparen || Ascii.eqb a rparen) eqn:Hparen; [apply IH|].
  simpl in Hrec.
  destruct (WHITESPACE a); [apply IH|].
  destruct (NUMBERS a).
  { pose proof (scan_never_throws (test NUMBERS) fuel input (Some a) current EmptyString) as Hs.
    destruct (scan _ _ _ _ _ _) as [[q v]| |]; cbn; try reflexivity; [apply IH|discriminate]. }
  destruct (Ascii.eqb a dquote).
  { pose proof (scan_never_throws (fun c => negb (char_is dquote c)) fuel input
                  (String.get (S current) input) (S current) EmptyString) as Hs.
    destruct (scan _ _ _ _ _ _) as [[q v]| |]; cbn; try reflexivity; [apply IH|discriminate]. }
  destruct (LETTERS a); [|discriminate].
  pose proof (scan_never_throws (test LETTERS) fuel input (Some a) current EmptyString) as Hs.
  destruct (scan _ _ _ _ _ _) as [[q v]| |]; cbn; try reflexivity; [apply IH|discriminate].
Qed.

(** A text of recognized characters with a double quote in it: every run
    of the tokenizer on it is cut. *)
Lemma tokenizer_quote fuel input i :
  forallb recognized (list_ascii_of_string input) = true ->
  String.get i input = Some dquote ->
  tokenizer fuel input = OutOfFuel.
Proof.
  intros Hrec Hi. apply cut.
  - apply (tokenizer_loop_quote_ahead fuel input 0 [] i); [lia|exact Hi].
  - apply tokenizer_loop_recognized. intros j a Hget.
    rewrite forallb_forall in Hrec. apply Hrec. apply (get_In _ _ _ Hget).
Qed.



(** ** The tokenizer: texts on which every run ends *)

Lemma tokenizer_loop_ends input :
  (forall i, String.get i input <> Some dquote) ->
  String.length input = 0
  \/ test LETTERS (String.get (String.length input - 1) input) = false ->
  forall fuel current tokens,
    String.length input - current + 2 <= fuel ->
    finished (tokenizer_loop fuel input current tokens) = true.
Proof.
  intros Hquote Hlast.
  induction fuel as [|fuel IH]; intros current tokens Hfuel; [lia|]. simpl.
  destruct (Nat.ltb_spec current (String.length input)) as [Hlt|Hge]; [|reflexivity].
  destruct (char_is lparen (String.get current input)
            || char_is rparen (String.get current input)); [apply IH; lia|].
  destruct (test WHITESPACE (String.get current input)); [apply IH; lia|].
  destruct (test NUMBERS (String.get current input)) eqn:Hnum.
  { destruct (scan_ends (test NUMBERS) input (String.length input)
                ltac:(rewrite get_past_end by lia; reflexivity)
                fuel current EmptyString ltac:(lia) ltac:(lia))
      as (q & v & Hscan & Hq).
    rewrite Hscan, bind_unit.
    apply scan_stops in Hscan as (Hle & Hstop & _).
    assert (q <> current) by congruence.
    apply IH. lia. }
  destruct (char_is dquote (String.get current input)) eqn:Hdq.
  { destruct (String.get current input) as [a|] eqn:Hget; [|discriminate].
    simpl in Hdq. apply Ascii.eqb_eq in Hdq as ->.
    destruct (Hquote _ Hget). }
  destruct (test LETTERS (String.get current input)) eqn:Hlet; [|reflexivity].
  destruct Hlast as [Hempty|Hlast]; [lia|].
  destruct (scan_ends (test LETTERS) input (String.length input - 1) Hlast
              fuel current EmptyString ltac:(lia) ltac:(lia))
    as (q & v & Hscan & Hq).
  rewrite Hscan, bind_unit.
  apply scan_stops in Hscan as (Hle & Hstop & _).
  assert (q <> current) by congruence.
  apply IH. lia.
Qed.

(** X5.  Every run of the tokenizer ends, by a return or by its
    [TypeError], on a text that has no double quote and does not end with a
    letter, given fuel for the length of the text. *)
Theorem tokenizer_ends (input : string) (fuel : nat) :
  (forall i, String.get i input <> Some dquote) ->
  String.length input = 0
  \/ test LETTERS (String.get (String.length input - 1) input) = false ->
  String.length input + 2 <= fuel ->
  finished (tokenizer fuel input) = true.
Proof.
  intros Hquote Hlast Hfuel.
  apply tokenizer_loop_ends; [exact Hquote|exact Hlast|lia].
Qed.

(** ** The tokenizer: texts of calls over numbers *)

Lemma at_suffix_start input : at_suffix input 0 input.
Proof. split; reflexivity. Qed.

Lemma at_suffix_here input current suffix :
  at_suffix input current suffix -> String.get current input = String.get 0 suffix.
Proof. intros [_ Hget]. rewrite <- (Hget 0). f_equal. lia. Qed.

Lemma at_suffix_next input current a suffix :
  at_suffix input current (String a suffix) -> at_suffix input (S current) suffix.
Proof.
  intros [Hlen Hget]. split; [simpl in Hlen; lia|].
  intros i. change (String.get i suffix) with (String.get (S i) (String a suffix)).
  rewrite <- (Hget (S i)). f_equal. lia.
Qed.

Lemma at_suffix_skip input current s suffix :
  at_suffix input current (s +:+ suffix) ->
  at_suffix input (current + String.length s) suffix.
Proof.
  revert current. induction s as [|a s IH]; intros current Hat.
  - rewrite append_nil in Hat. simpl. rewrite Nat.add_0_r. exact Hat.
  - rewrite append_cons in Hat. apply at_suffix_next in Hat. apply IH in Hat.
    simpl. rewrite <- Nat.add_succ_comm. exact Hat.
Qed.

Lemma at_suffix_more input current a suffix :
  at_suffix input current (String a suffix) ->
  (current <? String.length input) = true.
Proof. intros [Hlen _]. simpl in Hlen. apply Nat.ltb_lt. lia. Qed.

Lemma at_suffix_end input current :
  at_suffix input current EmptyString ->
  (current <? String.length input) = false.
Proof. intros [Hlen _]. simpl in Hlen. apply Nat.ltb_ge. lia. Qed.

(** An inner loop over a run of the class, ended by [next]. *)
Lemma scan_run re run : forall fuel input current value suffix,
  at_suffix input current (run +:+ suffix) ->
  all re run = true ->
  test re (String.get 0 suffix) = false ->
  String.length run < fuel ->
  scan (test re) fuel input (String.get current input) current value
  = Return (current + String.length run, value +:+ run).
Proof.
  induction run as [|a run IH]; intros fuel input current value suffix Hat Hall Hend Hfuel;
    (destruct fuel as [|fuel]; [simpl in Hfuel; lia|]); simpl.
  - rewrite (at_suffix_here _ _ _ Hat), append_nil, Hend.
    rewrite Nat.add_0_r, append_empty. reflexivity.
  - rewrite append_cons in Hat. rewrite (at_suffix_here _ _ _ Hat). simpl String.get.
    unfold all in Hall. simpl in Hall. apply andb_prop in Hall as [Ha Hall].
    rewrite test_defined, Ha.
    rewrite (IH fuel input (S current) _ suffix);
      [|apply (at_suffix_next _ _ a); exact Hat|exact Hall|exact Hend|simpl in Hfuel; lia].
    unfold toString. rewrite append_assoc, append_cons, append_nil.
    f_equal. f_equal. lia.
Qed.

(** The outer loop over whitespace. *)
Lemma tokenizer_loop_space space : forall fuel input current tokens suffix,
  at_suffix input current (space +:+ suffix) ->
  all WHITESPACE space = true ->
  tokenizer_loop (String.length space + fuel) input current tokens
  = tokenizer_loop fuel input (current + String.length space) tokens.
Proof.
  induction space as [|a space IH]; intros fuel input current tokens suffix Hat Hall; simpl.
  - rewrite Nat.add_0_r. reflexivity.
  - rewrite append_cons in Hat.
    rewrite (at_suffix_more _ _ _ _ Hat), (at_suffix_here _ _ _ Hat). simpl String.get.
    unfold all in Hall. simpl in Hall. apply andb_prop in Hall as [Ha Hall].
    destruct (class_of_whitespace a Ha) as [Hl Hr].
    simpl char_is. rewrite Hl, Hr, test_defined, Ha. simpl.
    rewrite (IH fuel input (S current) tokens suffix);
      [|apply (at_suffix_next _ _ a); exact Hat|exact Hall].
    f_equal. lia.
Qed.

(** The outer loop over one token. *)
Lemma tokenizer_loop_token token : forall fuel input current tokens suffix,
  at_suffix input current (Token.value token +:+ suffix) ->
  lexeme token = true ->
  ends token (String.get 0 suffix) = true ->
  String.length (Token.value token) < fuel ->
  tokenizer_loop (S fuel) input current tokens
  = tokenizer_loop fuel input (current + String.length (Token.value token))
      (tokens ++ [token]).
Proof.
  destruct token as [kind value]. unfold lexeme, ends. simpl Token.type. simpl Token.value.
  intros fuel input current tokens suffix Hat Hlex Hend Hfuel.
  destruct value as [|a value].
  { destruct kind; try discriminate. }
  simpl tokenizer_loop.
  rewrite (at_suffix_more _ _ _ _ Hat), (at_suffix_here _ _ _ Hat). simpl String.get.
  rewrite !test_defined. simpl char_is.
  destruct kind; try discriminate.
  - apply orb_prop in Hlex as [Heq|Heq]; apply String.eqb_eq in Heq;
      injection Heq as -> ->; simpl; repeat f_equal; lia.
  - simpl in Hlex. unfold all in Hlex. simpl in Hlex. apply andb_prop in Hlex as [Ha Hall].
    destruct (class_of_digit a Ha) as (-> & -> & ->). rewrite Ha. simpl orb. cbv iota.
    change (Some a) with (String.get 0 (String a value +:+ suffix)).
    rewrite <- (at_suffix_here _ _ _ Hat).
    rewrite (scan_run NUMBERS (String a value) fuel input current EmptyString suffix);
      [reflexivity|exact Hat|unfold all; simpl; rewrite Ha; exact Hall| |exact Hfuel].
    apply negb_true_iff. exact Hend.
  - simpl in Hlex. unfold all in Hlex. simpl in Hlex. apply andb_prop in Hlex as [Ha Hall].
    destruct (class_of_letter a Ha) as (-> & -> & -> & -> & ->). rewrite Ha.
    simpl orb. cbv iota.
    change (Some a) with (String.get 0 (String a value +:+ suffix)).
    rewrite <- (at_suffix_here _ _ _ Hat).
    rewrite (scan_run LETTERS (String a value) fuel input current EmptyString suffix);
      [reflexivity|exact Hat|unfold all; simpl; rewrite Ha; exact Hall| |exact Hfuel].
    apply negb_true_iff. exact Hend.
Qed.

Lemma tokenizer_loop_spell items tail : forall fuel input current tokens,
  at_suffix input current (spell items tail) ->
  well_spelled items tail = true ->
  String.length (spell items tail) + 2 <= fuel ->
  tokenizer_loop fuel input current tokens = Return (tokens ++ map snd items).
Proof.
  induction items as [|[space token] items IH]; intros fuel input current tokens Hat Hwell Hfuel;
    simpl in *.
  - replace fuel with (String.length tail + (fuel - String.length tail)) by lia.
    rewrite <- (append_empty tail) in Hat.
    rewrite (tokenizer_loop_space tail _ input current tokens EmptyString Hat Hwell).
    apply at_suffix_skip in Hat.
    destruct (fuel - String.length tail) as [|fuel'] eqn:Hrest; [lia|]. simpl.
    rewrite (at_suffix_end _ _ Hat), app_nil_r. reflexivity.
  - apply andb_prop in Hwell as [Hwell Hitems].
    apply andb_prop in Hwell as [Hwell Hends].
    apply andb_prop in Hwell as [Hspace Hlex].
    rewrite !length_append in Hfuel.
    replace fuel with (String.length space + (fuel - String.length space)) by lia.
    rewrite (tokenizer_loop_space space _ input current tokens _ Hat Hspace).
    apply at_suffix_skip in Hat.
    destruct (fuel - String.length space) as [|fuel'] eqn:Hrest; [lia|].
    rewrite (tokenizer_loop_token token fuel' input _ tokens _ Hat Hlex Hends) by lia.
    apply at_suffix_skip in Hat.
    rewrite (IH fuel' input _ (tokens ++ [token]) Hat Hitems).
    + rewrite <- app_assoc. reflexivity.
    + assert (0 < String.length (Token.value token)).
      { destruct token as [kind [|a value]]; [destruct kind; discriminate|simpl; lia]. }
      lia.
Qed.

Lemma tokenizer_spell items tail fuel :
  well_spelled items tail = true ->
  String.length (spell items tail) + 2 <= fuel ->
  tokenizer fuel (spell items tail) = Return (map snd items).
Proof.
  intros Hwell Hfuel.
  apply (tokenizer_loop_spell items tail fuel _ 0 []); [apply at_suffix_start|assumption..].
Qed.

Lemma spell_length items tail :
  well_spelled items tail = true ->
  length items <= String.length (spell items tail).
Proof.
  induction items as [|[space token] items IH]; intros Hwell; simpl in *; [lia|].
  apply andb_prop in Hwell as [Hwell Hitems].
  apply andb_prop in Hwell as [Hwell _].
  apply andb_prop in Hwell as [_ Hlex].
  specialize (IH Hitems). rewrite !length_append.
  assert (0 < String.length (Token.value token)).
  { destruct token as [kind [|a value]]; [destruct kind; discriminate|simpl; lia]. }
  lia.
Qed.

(** ** The parser: fuel *)

Lemma walk_fuel_both fuel tokens :
  (forall fuel' current, fuel <= fuel' ->
     finished (walk fuel tokens current) = true ->
     walk fuel' tokens current = walk fuel tokens current)
  /\ (forall fuel' current params, fuel <= fuel' ->
     finished (walk_params fuel tokens current params) = true ->
     walk_params fuel' tokens current params = walk_params fuel tokens current params).
Proof.
  induction fuel as [|fuel [IHwalk IHparams]]; split; intros fuel'; intros;
    try discriminate; (destruct fuel' as [|fuel']; [lia|]);
    assert (Hle : fuel <= fuel') by lia; simpl in *.
  - destruct (tokens !! current) as [token|]; [|reflexivity].
    repeat match goal with
    | |- (if ?b then _ else _) = _ => destruct b
    | |- _ => reflexivity
    end.
    destruct (tokens !! S current) as [token'|]; [|reflexivity].
    match goal with H : finished (?m ≫= _) = true |- _ =>
      destruct (bind_finished _ _ H) as [Hm _] end.
    rewrite (IHparams fuel') by assumption. reflexivity.
  - destruct (tokens !! current) as [token|]; [|reflexivity].
    destruct (not_closing token); [|reflexivity].
    match goal with H : finished (?m ≫= _) = true |- _ =>
      destruct (bind_finished _ _ H) as [Hm Hk] end.
    rewrite (IHwalk fuel') by assumption.
    destruct (walk fuel tokens current) as [[node current']| |]; cbn; try reflexivity.
    apply IHparams; [assumption|]. apply (Hk _ eq_refl).
Qed.

Lemma walk_fuel fuel fuel' tokens current :
  fuel <= fuel' -> finished (walk fuel tokens current) = true ->
  walk fuel' tokens current = walk fuel tokens current.
Proof. apply walk_fuel_both. Qed.

Lemma parser_loop_fuel fuel fuel' tokens current body :
  fuel <= fuel' ->
  finished (parser_loop fuel tokens current body) = true ->
  parser_loop fuel' tokens current body = parser_loop fuel tokens current body.
Proof.
  revert fuel' current body.
  induction fuel as [|fuel IH]; intros fuel' current body Hle Hfin; simpl in *.
  - discriminate.
  - destruct fuel' as [|fuel']; [lia|]. simpl.
    destruct (current <? length tokens); [|reflexivity].
    destruct (bind_finished _ _ Hfin) as [Hm Hk].
    rewrite (walk_fuel fuel fuel') by (assumption || lia).
    destruct (walk fuel tokens current) as [[node current']| |]; cbn; try reflexivity.
    apply IH; [lia|]. apply (Hk _ eq_refl).
Qed.

Lemma parser_fuel fuel fuel' tokens :
  fuel <= fuel' -> finished (parser fuel tokens) = true ->
  parser fuel' tokens = parser fuel tokens.
Proof. apply parser_loop_fuel. Qed.

(** ** The parser: the trees it builds *)

Lemma walk_source_both fuel tokens :
  (forall current node current',
     walk fuel tokens current = Return (node, current') ->
     source_expression node = true)
  /\ (forall current params params' current',
     forallb source_expression params = true ->
     walk_params fuel tokens current params = Return (params', current') ->
     forallb source_expression params' = true).
Proof.
  induction fuel as [|fuel [IHwalk IHparams]]; split; intros *; simpl; try discriminate.
  - destruct (tokens !! current) as [token|]; [|discriminate].
    destruct (TokenType.eqb _ TokenType.number); [intros [= <- <-]; reflexivity|].
    destruct (TokenType.eqb _ TokenType.string); [intros [= <- <-]; reflexivity|].
    destruct (is_paren "(" token); [|discriminate].
    destruct (tokens !! S current) as [token'|]; [|discriminate].
    intros Hbind. apply bind_returns in Hbind as ([params c] & Hparams & [= <- <-]).
    simpl. apply (IHparams _ [] _ _ eq_refl Hparams).
  - intros Hsrc. destruct (tokens !! current) as [token|]; [|discriminate].
    destruct (not_closing token); [|intros [= <- <-]; exact Hsrc].
    intros Hbind. apply bind_returns in Hbind as ([node c] & Hwalk & Hrest).
    apply (IHparams _ _ _ _) in Hrest; [exact Hrest|].
    rewrite forallb_app, Hsrc. simpl. rewrite (IHwalk _ _ _ Hwalk). reflexivity.
Qed.

Lemma parser_loop_source fuel tokens current body ast :
  forallb source_expression body = true ->
  parser_loop fuel tokens current body = Return ast ->
  exists body', ast = new_ProgramNode body' /\ forallb source_expression body' = true.
Proof.
  revert current body.
  induction fuel as [|fuel IH]; intros current body Hsrc; simpl; [discriminate|].
  destruct (current <? length tokens).
  - intros Hbind. apply bind_returns in Hbind as ([node c] & Hwalk & Hrest).
    apply IH in Hrest; [exact Hrest|].
    rewrite forallb_app, Hsrc. simpl.
    rewrite (proj1 (walk_source_both fuel tokens) _ _ _ Hwalk). reflexivity.
  - intros [= <-]. exists body. split; [reflexivity|exact Hsrc].
Qed.

Lemma parser_source fuel tokens ast :
  parser fuel tokens = Return ast ->
  exists body, ast = new_ProgramNode body /\ forallb source_expression body = true.
Proof. apply parser_loop_source. reflexivity. Qed.

(** ** The parser: every run ends *)

Lemma walk_progress_both fuel tokens :
  (forall current node current',
     walk fuel tokens current = Return (node, current') ->
     current < current' <= length tokens)
  /\ (forall current params params' current',
     walk_params fuel tokens current params = Return (params', current') ->
     current <= current' < length tokens).
Proof.
  induction fuel as [|fuel [IHwalk IHparams]]; split; intros *; simpl; try discriminate.
  - destruct (tokens !! current) as [token|] eqn:Htoken; [|discriminate].
    apply lookup_lt_Some in Htoken.
    destruct (TokenType.eqb _ TokenType.number); [intros [= <- <-]; lia|].
    destruct (TokenType.eqb _ TokenType.string); [intros [= <- <-]; lia|].
    destruct (is_paren "(" token); [|discriminate].
    destruct (tokens !! S current) as [token'|]; [|discriminate].
    intros Hbind. apply bind_returns in Hbind as ([params c] & Hparams & [= <- <-]).
    apply IHparams in Hparams. lia.
  - destruct (tokens !! current) as [token|] eqn:Htoken; [|discriminate].
    apply lookup_lt_Some in Htoken.
    destruct (not_closing token); [|intros [= <- <-]; lia].
    intros Hbind. apply bind_returns in Hbind as ([node c] & Hwalk & Hrest).
    apply IHwalk in Hwalk. apply IHparams in Hrest. lia.
Qed.

Lemma walk_finishes_both fuel tokens :
  (forall current,
     2 * (length tokens - current) + 1 <= fuel ->
     finished (walk fuel tokens current) = true)
  /\ (forall current params,
     2 * (length tokens - current) + 2 <= fuel ->
     finished (walk_params fuel tokens current params) = true).
Proof.
  induction fuel as [|fuel [IHwalk IHparams]]; split; intros *; intros Hfuel;
    try lia; simpl.
  - destruct (tokens !! current) as [token|] eqn:Htoken; [|reflexivity].
    apply lookup_lt_Some in Htoken.
    destruct (TokenType.eqb _ TokenType.number); [reflexivity|].
    destruct (TokenType.eqb _ TokenType.string); [reflexivity|].
    destruct (is_paren "(" token); [|reflexivity].
    destruct (tokens !! S current) as [token'|] eqn:Htoken'; [|reflexivity].
    apply lookup_lt_Some in Htoken'.
    specialize (IHparams (S (S current)) [] ltac:(lia)).
    destruct (walk_params fuel tokens (S (S current)) []) as [[params c]| |];
      try discriminate; reflexivity.
  - destruct (tokens !! current) as [token|] eqn:Htoken; [|reflexivity].
    apply lookup_lt_Some in Htoken.
    destruct (not_closing token); [|reflexivity].
    specialize (IHwalk current ltac:(lia)).
    destruct (walk fuel tokens current) as [[node c]| |] eqn:Hwalk;
      try discriminate; try reflexivity.
    rewrite bind_unit.
    apply (proj1 (walk_progress_both fuel tokens)) in Hwalk.
    apply IHparams. lia.
Qed.

Lemma parser_loop_finishes fuel tokens current body :
  2 * (length tokens - current) + 2 <= fuel ->
  finished (parser_loop fuel tokens current body) = true.
Proof.
  revert current body.
  induction fuel as [|fuel IH]; intros current body Hfuel; [lia|]. simpl.
  destruct (Nat.ltb_spec current (length tokens)) as [Hlt|Hge]; [|reflexivity].
  pose proof (proj1 (walk_finishes_both fuel tokens) current ltac:(lia)) as Hfin.
  destruct (walk fuel tokens current) as [[node c]| |] eqn:Hwalk;
    try discriminate; try reflexivity.
  rewrite bind_unit.
  apply (proj1 (walk_progress_both fuel tokens)) in Hwalk.
  apply IH. lia.
Qed.

Lemma walk_errors_both fuel tokens :
  (forall current e, walk fuel tokens current = Throw e -> parse_error e)
  /\ (forall current params e,
     walk_params fuel tokens current params = Throw e -> parse_error e).
Proof.
  induction fuel as [|fuel [IHwalk IHparams]]; split; intros *; simpl; try discriminate.
  - destruct (tokens !! current) as [token|]; [|intros [= <-]; left; reflexivity].
    destruct (TokenType.eqb _ TokenType.number); [discriminate|].
    destruct (TokenType.eqb _ TokenType.string); [discriminate|].
    destruct (is_paren "(" token);
      [|intros [= <-]; right; eexists; reflexivity].
    destruct (tokens !! S current) as [token'|]; [|intros [= <-]; left; reflexivity].
    destruct (walk_params fuel tokens (S (S current)) []) as [[params c]| |] eqn:Hparams;
      try discriminate.
    intros [= <-]. apply (IHparams _ _ _ Hparams).
  - destruct (tokens !! current) as [token|]; [|intros [= <-]; left; reflexivity].
    destruct (not_closing token); [|discriminate].
    destruct (walk fuel tokens current) as [[node c]| |] eqn:Hwalk; try discriminate.
    + rewrite bind_unit. apply IHparams.
    + intros [= <-]. apply (IHwalk _ _ Hwalk).
Qed.

Lemma parser_loop_errors fuel tokens current body e :
  parser_loop fuel tokens current body = Throw e -> parse_error e.
Proof.
  revert current body.
  induction fuel as [|fuel IH]; intros current body; simpl; [discriminate|].
  destruct (current <? length tokens); [|discriminate].
  destruct (walk fuel tokens current) as [[node c]| |] eqn:Hwalk; try discriminate.
  - rewrite bind_unit. apply IH.
  - intros [= <-]. apply (proj1 (walk_errors_both fuel tokens) _ _ Hwalk).
Qed.

(** X7.  On every token sequence the parser ends, given fuel for twice the
    tokens, with a program, with its own [TypeError] that names a token
    kind, or with the engine's error of a read past the end. *)
Theorem parser_ends (tokens : list Token.t) (fuel : nat) :
  2 * length tokens + 2 <= fuel ->
  (exists body, parser fuel tokens = Return (new_ProgramNode body)
                /\ forallb source_expression body = true)
  \/ (exists kind, parser fuel tokens = Throw (TypeError (TokenType.toString kind)))
  \/ parser fuel tokens = Throw UndefinedAccess.
Proof.
  intros Hfuel.
  pose proof (parser_loop_finishes fuel tokens 0 [] ltac:(lia)) as Hfin.
  fold (parser fuel tokens) in Hfin.
  destruct (parser fuel tokens) as [ast|e|] eqn:Hparse; try discriminate.
  - left. destruct (parser_source _ _ _ Hparse) as (body & -> & Hsrc). eauto.
  - right. destruct (parser_loop_errors _ _ _ _ _ Hparse) as [->|[kind ->]]; eauto.
Qed.

(** ** The parser: the tokens of source expressions *)

Lemma at_tokens_head tokens current token expected :
  at_tokens tokens current (token :: expected) -> tokens !! current = Some token.
Proof. intros Hat. rewrite <- (Nat.add_0_r current). apply Hat. reflexivity. Qed.

Lemma at_tokens_tail tokens current token expected :
  at_tokens tokens current (token :: expected) -> at_tokens tokens (S current) expected.
Proof.
  intros Hat i t Hi. rewrite Nat.add_succ_comm. apply Hat. exact Hi.
Qed.

Lemma at_tokens_app tokens current expected expected' :
  at_tokens tokens current (expected ++ expected') ->
  at_tokens tokens current expected
  /\ at_tokens tokens (current + length expected) expected'.
Proof.
  intros Hat. split; intros i t Hi.
  - apply Hat. apply lookup_app_l_Some. exact Hi.
  - rewrite <- Nat.add_assoc. apply Hat.
    rewrite lookup_app_r by lia. rewrite <- Hi. f_equal. lia.
Qed.

Lemma tokens_of_head node :
  source_expression node = true ->
  exists token expected,
    tokens_of node = token :: expected /\ not_closing token = true.
Proof.
  destruct node; try discriminate; intros _; simpl; eexists _, _; split;
    reflexivity.
Qed.

Lemma walk_params_tokens_of params :
  forallb source_expression params = true ->
  Forall walks params ->
  forall fuel tokens current acc,
    at_tokens tokens current
      (flat_map tokens_of params ++ [Token.mk TokenType.paren ")"]) ->
    length (flat_map tokens_of params) + 1 <= fuel ->
    walk_params fuel tokens current acc
    = Return (acc ++ map structure params,
              current + length (flat_map tokens_of params)).
Proof.
  intros Hsrc Hwalks. revert Hsrc.
  induction Hwalks as [|p ps Hp _ IH]; intros Hsrc fuel tokens current acc Hat Hfuel;
    (destruct fuel as [|fuel]; [lia|]); simpl in *.
  - rewrite (at_tokens_head _ _ _ _ Hat). simpl.
    rewrite app_nil_r, Nat.add_0_r. reflexivity.
  - apply andb_prop in Hsrc as [Hsrc_p Hsrc_ps].
    destruct (tokens_of_head p Hsrc_p) as (token & expected & Hhead & Hopen).
    rewrite <- app_assoc in Hat. apply at_tokens_app in Hat as [Hat_p Hat_ps].
    rewrite Hhead in Hat_p. rewrite (at_tokens_head _ _ _ _ Hat_p), Hopen.
    rewrite <- Hhead in Hat_p. rewrite length_app in Hfuel.
    assert (0 < length (tokens_of p)) by (rewrite Hhead; simpl; lia).
    rewrite (Hp fuel tokens current Hat_p) by lia. rewrite bind_unit.
    rewrite (IH Hsrc_ps fuel tokens _ _ Hat_ps) by lia.
    rewrite <- app_assoc, length_app, Nat.add_assoc. reflexivity.
Qed.

Lemma walk_tokens_of node : source_expression node = true -> walks node.
Proof.
  revert node. apply source_expression_ind;
    [intros c value|intros c value|intros c name params Hsrc IH];
    intros fuel tokens current Hat Hfuel;
    (destruct fuel as [|fuel]; [simpl in Hfuel; lia|]); simpl in *.
  - rewrite (at_tokens_head _ _ _ _ Hat). simpl. rewrite Nat.add_1_r. reflexivity.
  - rewrite (at_tokens_head _ _ _ _ Hat). simpl. rewrite Nat.add_1_r. reflexivity.
  - rewrite (at_tokens_head _ _ _ _ Hat). simpl.
    apply at_tokens_tail in Hat. rewrite (at_tokens_head _ _ _ _ Hat).
    apply at_tokens_tail in Hat. rewrite length_app in Hfuel. simpl in Hfuel.
    rewrite (walk_params_tokens_of params Hsrc IH fuel tokens _ [] Hat) by lia.
    rewrite bind_unit, length_app. simpl. repeat f_equal. lia.
Qed.

Lemma parser_loop_tokens_of body :
  forallb source_expression body = true ->
  forall fuel tokens current acc,
    at_tokens tokens current (flat_map tokens_of body) ->
    length tokens = current + length (flat_map tokens_of body) ->
    length (flat_map tokens_of body) + 1 <= fuel ->
    parser_loop fuel tokens current acc
    = Return (new_ProgramNode (acc ++ map structure body)).
Proof.
  induction body as [|node body IH]; intros Hsrc fuel tokens current acc Hat Hlen Hfuel;
    (destruct fuel as [|fuel]; [lia|]); simpl in *.
  - rewrite (proj2 (Nat.ltb_ge _ _)) by lia. rewrite app_nil_r. reflexivity.
  - apply andb_prop in Hsrc as [Hnode Hbody].
    destruct (tokens_of_head node Hnode) as (token & expected & Hhead & _).
    assert (0 < length (tokens_of node)) by (rewrite Hhead; simpl; lia).
    rewrite length_app in Hlen, Hfuel.
    rewrite (proj2 (Nat.ltb_lt _ _)) by lia.
    apply at_tokens_app in Hat as [Hat_node Hat_body].
    rewrite (walk_tokens_of node Hnode fuel tokens current Hat_node) by lia.
    rewrite bind_unit.
    rewrite (IH Hbody fuel tokens _ _ Hat_body) by lia.
    rewrite <- app_assoc. reflexivity.
Qed.

(** Printing the tokens of a program and parsing them gives the program
    back, with every [_context] undefined. *)
Lemma parser_tokens_of body fuel :
  forallb source_expression body = true ->
  length (flat_map tokens_of body) + 1 <= fuel ->
  parser fuel (flat_map tokens_of body) = Return (new_ProgramNode (map structure body)).
Proof.
  intros Hsrc Hfuel.
  apply (parser_loop_tokens_of body Hsrc fuel _ 0 []); [|reflexivity|exact Hfuel].
  intros i token Hi. exact Hi.
Qed.

(** ** The transformer: the store *)

Lemma push_length r o h : length (push r o h) = length h.
Proof. apply length_alter. Qed.

Lemma push_lookup r o h array :
  h !! r = Some array -> push r o h !! r = Some (array ++ [o]).
Proof. intros Hr. unfold push. rewrite list_lookup_alter_eq, Hr. reflexivity. Qed.

Lemma push_lookup_ne r r' o h : r <> r' -> push r o h !! r' = h !! r'.
Proof. intros Hne. unfold push. apply list_lookup_alter_ne. exact Hne. Qed.

(** ** The transformer: one visit *)

Lemma with_slots_call next c name params :
  with_slots next (CallExpression c name params)
  = CallExpression (Some next) name (with_slots_in (S next) params).
Proof. reflexivity. Qed.

Lemma placed_below_call node :
  source_expression node = true -> placed true node = mirror node.
Proof. destruct node; reflexivity || discriminate. Qed.

Lemma visit_array nodes :
  Forall visits nodes ->
  forall parent rp h, _context parent = Some rp -> rp < length h ->
  exists nodes' h',
    traverseArray visit nodes parent h = Return (nodes', h')
    /\ visited_in parent rp h nodes nodes' h'.
Proof.
  induction 1 as [|node nodes Hnode _ IH]; intros parent rp h Hctx Hrp.
  - exists [], h. split; [reflexivity|]. unfold visited_in, calls_in. simpl.
    split; [reflexivity|]. split; [lia|]. split; [auto|].
    exists []. split; [intros array ->; rewrite app_nil_r; reflexivity|].
    intros; constructor.
  - destruct (Hnode parent rp h Hctx Hrp)
      as (node' & h1 & Hvisit & -> & Hlen1 & Hframe1 & o & Hpush1 & Hread1).
    destruct (IH parent rp h1 Hctx ltac:(lia))
      as (nodes' & h2 & Hrest & -> & Hlen2 & Hframe2 & os & Hpush2 & Hread2).
    exists (with_slots (length h) node :: with_slots_in (length h1) nodes), h2.
    split; [simpl; rewrite Hvisit; cbn; rewrite Hrest; reflexivity|].
    unfold visited_in, calls_in in *. simpl.
    split; [rewrite Hlen1; reflexivity|]. split; [lia|].
    split; [intros r Hr Hne; rewrite Hframe2, Hframe1 by lia; reflexivity|].
    exists (o :: os). split.
    + intros array Harray. rewrite (Hpush2 _ (Hpush1 _ Harray)), <- app_assoc.
      reflexivity.
    + intros h'' fuel Hfuel Hagree. constructor.
      * apply Hread1; [unfold reading in *; lia|].
        intros r Hr. rewrite <- Hagree by lia. symmetry. apply Hframe2; lia.
      * apply Hread2; [unfold reading in *; lia|].
        intros r Hr. apply Hagree. lia.
Qed.

Lemma visit_expression node : source_expression node = true -> visits node.
Proof.
  revert node. apply source_expression_ind;
    [intros c value|intros c value|intros c name params Hsrc IH];
    intros parent rp h Hctx Hrp.
  - exists (NumberLiteral c value), (push rp (ONumberLiteral value) h).
    split; [cbn; rewrite Hctx; reflexivity|].
    split; [reflexivity|]. split; [rewrite push_length; simpl; lia|].
    split; [intros r _ Hne; apply push_lookup_ne; congruence|].
    exists (ONumberLiteral value). split; [apply push_lookup|].
    intros h'' [|fuel] Hfuel _; [unfold reading in Hfuel; destruct (below_call parent); lia|].
    reflexivity.
  - exists (StringLiteral c value), (push rp (OStringLiteral value) h).
    split; [cbn; rewrite Hctx; reflexivity|].
    split; [reflexivity|]. split; [rewrite push_length; simpl; lia|].
    split; [intros r _ Hne; apply push_lookup_ne; congruence|].
    exists (OStringLiteral value). split; [apply push_lookup|].
    intros h'' [|fuel] Hfuel _; [unfold reading in Hfuel; destruct (below_call parent); lia|].
    reflexivity.
  - set (r := length h).
    set (call := OJsCallExpression name r).
    set (o := if below_call parent then call else OJsExpressionStatement call).
    set (h1 := push rp o (h ++ [[]])).
    assert (Hlen1 : length h1 = S (length h)).
    { unfold h1. rewrite push_length, length_app. simpl. lia. }
    assert (Hr1 : h1 !! r = Some []).
    { unfold h1. rewrite push_lookup_ne by (unfold r; lia).
      apply list_lookup_middle. reflexivity. }
    destruct (visit_array params IH (CallExpression (Some r) name params) r h1
                eq_refl ltac:(unfold r; lia))
      as (params' & h2 & Hparams & -> & Hlen2 & Hframe2 & os & Hpush2 & Hread2).
    exists (CallExpression (Some r) name (with_slots_in (length h1) params)), h2.
    split.
    { cbn. unfold below_call in o. fold r.
      destruct (ASTNodeType.eqb (type parent) ASTNodeType.CallExpression) eqn:Hbelow;
        cbn; rewrite Hctx; cbn; fold call; fold o; fold h1; rewrite Hparams;
        reflexivity. }
    split; [rewrite with_slots_call, Hlen1; reflexivity|].
    split; [simpl; fold (calls_in params); lia|].
    split.
    { intros r' Hr' Hne. rewrite Hframe2 by (unfold r; lia).
      unfold h1. rewrite push_lookup_ne by congruence.
      apply lookup_app_l. exact Hr'. }
    exists o. split.
    { intros array Harray. rewrite Hframe2 by (unfold r; lia).
      apply push_lookup. rewrite lookup_app_l by exact Hrp. exact Harray. }
    intros h'' fuel Hfuel Hagree.
    assert (Hcall : forall fuel', S (calls_in params) + 1 <= fuel' ->
              snapshot fuel' h'' call
              = Return (mirror (CallExpression c name params))).
    { intros [|fuel'] Hfuel'; [lia|]. simpl.
      rewrite <- Hagree by (fold r; lia).
      rewrite (Hpush2 _ Hr1). simpl.
      rewrite (mapM_returns _ os (map mirror params)); [reflexivity|].
      specialize (Hread2 h'' fuel' ltac:(unfold reading; simpl; lia)
                    ltac:(intros r' Hr'; apply Hagree; lia)).
      clear -Hread2 Hsrc. revert Hsrc.
      induction Hread2 as [|o' p os' ps Hop _ IHr]; intros Hsrc; [constructor|].
      simpl in Hsrc. apply andb_prop in Hsrc as [Hp Hps].
      simpl. constructor; [|apply IHr; exact Hps].
      rewrite Hop. unfold below_call. simpl. rewrite (placed_below_call _ Hp).
      reflexivity. }
    unfold reading in Hfuel. simpl in Hfuel. fold (calls_in params) in Hfuel.
    unfold o, placed. destruct (below_call parent).
    + apply Hcall. lia.
    + destruct fuel as [|fuel]; [lia|]. simpl snapshot at 1.
      change (snapshot (S fuel) h'' (OJsExpressionStatement call))
        with (snapshot fuel h'' call ≫= fun e => Return (new_JsExpressionStatement e)).
      rewrite Hcall by lia. reflexivity.
Qed.

(** ** The transformer: a whole run *)

Lemma transformer_source h c body :
  forallb source_expression body = true ->
  exists h',
    transformer_run h (ProgramNode c body)
    = Return {| newAst := new_ProgramNode (map (placed false) body);
                ast_after := ProgramNode (Some (length h))
                               (with_slots_in (S (length h)) body);
                heap_after := h' |}
    /\ length h' = S (length h) + calls_in body
    /\ forall r, r < length h -> h' !! r = h !! r.
Proof.
  intros Hsrc.
  assert (Hvisits : Forall visits body).
  { clear -Hsrc. induction body as [|node body IH]; constructor;
      simpl in Hsrc; apply andb_prop in Hsrc as [Hnode Hbody].
    - apply visit_expression. exact Hnode.
    - apply IH. exact Hbody. }
  set (r := length h). set (h1 := h ++ [[]]).
  assert (Hlen1 : length h1 = S r) by (unfold h1; rewrite length_app; simpl; lia).
  destruct (visit_array body Hvisits (ProgramNode (Some r) body) r h1 eq_refl ltac:(lia))
    as (body' & h2 & Hbody & -> & Hlen2 & Hframe2 & os & Hpush2 & Hread2).
  exists h2. split; [|split; [lia|]].
  - unfold transformer_run, alloc, traverser. fold r h1. cbn.
    rewrite Hbody. cbn.
    rewrite (Hpush2 [] ltac:(apply list_lookup_middle; reflexivity)). simpl.
    rewrite (mapM_returns _ os (map (placed false) body)); [rewrite Hlen1; reflexivity|].
    specialize (Hread2 h2 (length h2 + (length h2 + 0) + 2)
                  ltac:(unfold reading; simpl; lia) ltac:(intros ? _; reflexivity)).
    clear -Hread2. induction Hread2; simpl; constructor; auto.
  - intros r' Hr'. rewrite Hframe2 by lia. apply lookup_app_l. exact Hr'.
Qed.

Lemma transformer_program h c body :
  forallb source_expression body = true ->
  transformer h (ProgramNode c body)
  = Return (new_ProgramNode (map (placed false) body)).
Proof.
  intros Hsrc. destruct (transformer_source h c body Hsrc) as (h' & Hrun & _).
  unfold transformer. rewrite Hrun. reflexivity.
Qed.

(** ** The transformer: the slots that a run leaves *)

Lemma with_slots_in_facts nodes :
  Forall (fun node => forall next,
    structure (with_slots next node) = structure node
    /\ literal_slots (with_slots next node) = literal_slots node
    /\ call_slots (with_slots next node) = map Some (seq next (calls node))) nodes ->
  forall next,
    map structure (with_slots_in next nodes) = map structure nodes
    /\ concat (map literal_slots (with_slots_in next nodes))
       = concat (map literal_slots nodes)
    /\ concat (map call_slots (with_slots_in next nodes))
       = map Some (seq next (calls_in nodes)).
Proof.
  induction 1 as [|node nodes Hnode _ IH]; intros next; [auto|].
  destruct (Hnode next) as (Hs & Hl & Hc).
  destruct (IH (next + calls node)) as (IHs & IHl & IHc).
  unfold calls_in in *. simpl.
  rewrite Hs, IHs, Hl, IHl, Hc, IHc, seq_app, map_app. auto.
Qed.

Lemma with_slots_facts node :
  source_expression node = true ->
  forall next,
    structure (with_slots next node) = structure node
    /\ literal_slots (with_slots next node) = literal_slots node
    /\ call_slots (with_slots next node) = map Some (seq next (calls node)).
Proof.
  intros Hsrc. pattern node. revert node Hsrc.
  apply source_expression_ind; try (intros; simpl; auto; fail).
  intros c name params _ IH next.
  destruct (with_slots_in_facts params IH (S next)) as (Hs & Hl & Hc).
  rewrite with_slots_call. simpl. fold (calls_in params).
  rewrite Hs, Hl, Hc. auto.
Qed.

Lemma with_slots_in_source nodes next :
  forallb source_expression nodes = true ->
  map structure (with_slots_in next nodes) = map structure nodes
  /\ concat (map literal_slots (with_slots_in next nodes))
     = concat (map literal_slots nodes)
  /\ concat (map call_slots (with_slots_in next nodes))
     = map Some (seq next (calls_in nodes)).
Proof.
  intros Hsrc. apply with_slots_in_facts.
  induction nodes as [|node nodes IH]; constructor;
    simpl in Hsrc; apply andb_prop in Hsrc as [Hnode Hnodes].
  - intros next'. apply with_slots_facts. exact Hnode.
  - apply IH. exact Hnodes.
Qed.

(** ** The code generator on the trees the transformer builds *)

Lemma generate_mirror node :
  source_expression node = true ->
  generateJsCode (mirror node) = Return (expression_text node)
  /\ statement_free (mirror node) = true
  /\ target_node (mirror node) = true.
Proof.
  intros Hsrc. pattern node. revert node Hsrc.
  apply source_expression_ind; try (intros; simpl; auto; fail).
  intros c name params _ IH.
  assert (Hargs : mapM generateJsCode (map mirror params)
                  = Return (map expression_text params)
                  /\ forallb statement_free (map mirror params) = true
                  /\ forallb target_node (map mirror params) = true).
  { induction IH as [|p ps (Hp & Hfree & Htarget) _ IHps]; [auto|].
    destruct IHps as (IHtext & IHfree & IHtarget). simpl.
    rewrite Hfree, IHfree, Htarget, IHtarget. split; [|auto].
    cbn. rewrite Hp. cbn. fold (mapM generateJsCode (map mirror ps)).
    rewrite IHtext. reflexivity. }
  destruct Hargs as (Htext & Hfree & Htarget).
  simpl. rewrite Hfree, Htarget. split; [|auto].
  cbn. fold (mapM generateJsCode (map mirror params)). rewrite Htext. reflexivity.
Qed.

Lemma generate_placed node :
  source_expression node = true ->
  generateJsCode (placed false node) = Return (statement_text node).
Proof.
  intros Hsrc. destruct (generate_mirror node Hsrc) as (Htext & _).
  destruct node; try discriminate; try exact Htext.
  unfold placed, statement_text. revert Htext. generalize (mirror (CallExpression _context0 name params)).
  intros a Ha. cbn. rewrite Ha. reflexivity.
Qed.

Lemma generate_program body :
  forallb source_expression body = true ->
  codeGenerator (new_ProgramNode (map (placed false) body))
  = Return (join newline (map statement_text body)).
Proof.
  intros Hsrc. unfold codeGenerator. cbn.
  fold (mapM generateJsCode (map (placed false) body)).
  rewrite (mapM_returns _ _ (map statement_text body)); [reflexivity|].
  induction body as [|node body IH]; simpl; constructor;
    simpl in Hsrc; apply andb_prop in Hsrc as [Hnode Hbody].
  - apply generate_placed. exact Hnode.
  - apply IH. exact Hbody.
Qed.

Lemma structure_source_in nodes :
  Forall (fun node =>
    source_expression (structure node) = true
    /\ expression_text (structure node) = expression_text node) nodes ->
  forallb source_expression (map structure nodes) = true
  /\ map expression_text (map structure nodes) = map expression_text nodes.
Proof.
  induction 1 as [|node nodes [Hsrc Htext] _ [IHsrc IHtext]]; [auto|].
  simpl. rewrite Hsrc, IHsrc, Htext, IHtext. auto.
Qed.

Lemma structure_source node :
  source_expression node = true ->
  source_expression (structure node) = true
  /\ expression_text (structure node) = expression_text node.
Proof.
  intros Hsrc. pattern node. revert node Hsrc.
  apply source_expression_ind; try (intros; simpl; auto; fail).
  intros c name params _ IH.
  destruct (structure_source_in params IH) as [Hsrc Htext].
  simpl. rewrite Hsrc, Htext. auto.
Qed.

Lemma structure_program body :
  forallb source_expression body = true ->
  forallb source_expression (map structure body) = true
  /\ map statement_text (map structure body) = map statement_text body.
Proof.
  induction body as [|node body IH]; intros Hsrc; [auto|].
  simpl in Hsrc. apply andb_prop in Hsrc as [Hnode Hbody].
  destruct (IH Hbody) as [IHsrc IHtext].
  destruct (structure_source node Hnode) as [Hsrc' Htext].
  simpl. rewrite Hsrc', IHsrc, IHtext. split; [reflexivity|]. f_equal.
  destruct node; try discriminate; simpl in *; congruence.
Qed.

(** ** The pipeline *)

Lemma compiler_stages h fuel input tokens body :
  tokenizer fuel input = Return tokens ->
  parser fuel tokens = Return (new_ProgramNode body) ->
  forallb source_expression body = true ->
  compiler h fuel input = Return (join newline (map statement_text body)).
Proof.
  intros Htok Hparse Hsrc. unfold compiler.
  rewrite Htok, bind_unit, Hparse, bind_unit. unfold new_ProgramNode at 1.
  rewrite (transformer_program h None body Hsrc), bind_unit.
  apply generate_program. exact Hsrc.
Qed.

(** More fuel and another store give the same result. *)
Lemma compiler_fuel_store h h' fuel fuel' input :
  fuel <= fuel' -> finished (compiler h fuel input) = true ->
  compiler h' fuel' input = compiler h fuel input.
Proof.
  intros Hle Hfin. unfold compiler in *.
  destruct (bind_finished _ _ Hfin) as [Htok Hrest].
  rewrite (tokenizer_fuel fuel fuel') by assumption.
  destruct (tokenizer fuel input) as [tokens| |]; try reflexivity.
  specialize (Hrest _ eq_refl). destruct (bind_finished _ _ Hrest) as [Hparse _].
  rewrite !bind_unit, (parser_fuel fuel fuel') by assumption.
  destruct (parser fuel tokens) as [ast| |] eqn:Hast; try reflexivity.
  destruct (parser_source _ _ _ Hast) as (body & -> & Hsrc).
  rewrite !bind_unit. unfold new_ProgramNode at 1 2.
  rewrite !(transformer_program _ None body Hsrc). reflexivity.
Qed.

(** X22.  Every text that spells a program of calls over numbers, with any
    whitespace between the tokens, compiles to the statements of the
    program: the names, the order of the arguments and the nesting are
    those of the text. *)
Theorem calls_over_numbers_compile h body items tail fuel :
  forallb source_expression body = true ->
  map snd items = flat_map tokens_of body ->
  well_spelled items tail = true ->
  String.length (spell items tail) + 2 <= fuel ->
  compiler h fuel (spell items tail)
  = Return (join newline (map statement_text body)).
Proof.
  intros Hsrc Htokens Hwell Hfuel.
  destruct (structure_program body Hsrc) as [Hsrc' Htext].
  rewrite <- Htext.
  apply (compiler_stages h fuel _ (map snd items)); [|rewrite Htokens|exact Hsrc'].
  - apply tokenizer_spell; assumption.
  - apply parser_tokens_of; [exact Hsrc|].
    rewrite <- Htokens, length_map. pose proof (spell_length items tail Hwell). lia.
Qed.

(** ** The scenarios of the specification *)

Lemma calls_over_numbers_compile_witness :
  forallb source_expression
    [new_CallExpression "add"
       [new_NumberLiteral "2";
        new_CallExpression "subtract"
          [new_NumberLiteral "4"; new_NumberLiteral "2"]]] = true
  /\ map snd sample_items
     = flat_map tokens_of
         [new_CallExpression "add"
            [new_NumberLiteral "2";
             new_CallExpression "subtract"
               [new_NumberLiteral "4"; new_NumberLiteral "2"]]]
  /\ well_spelled sample_items " " = true
  /\ String.length (spell sample_items " ") + 2 <= 40
  /\ compiler [] 40 (spell sample_items " ")
     = Return (join newline (map statement_text
         [new_CallExpression "add"
            [new_NumberLiteral "2";
             new_CallExpression "subtract"
               [new_NumberLiteral "4"; new_NumberLiteral "2"]]])).
Proof.
  assert (Hfuel : String.length (spell sample_items " ") + 2 <= 40)
    by (vm_compute; lia).
  split; [reflexivity|]. split; [reflexivity|]. split; [reflexivity|].
  split; [exact Hfuel|].
  apply calls_over_numbers_compile; [reflexivity|reflexivity|reflexivity|exact Hfuel].
Defined.

Example call_without_arguments : compiler [] 10 "(foo)" = Return "foo();".
Proof. vm_compute. reflexivity. Qed.

Example unknown_character :
  tokenizer 10 "(add 2 #)"
  = Throw (TypeError "I dont know what this char is: #")
  /\ compiler [] 10 "(add 2 #)"
     = Throw (TypeError "I dont know what this char is: #").
Proof. vm_compute. auto. Qed.

Lemma tokenizer_ends_witness :
  (forall i, String.get i "(add 2 #)" <> Some dquote)
  /\ (String.length "(add 2 #)" = 0
      \/ test LETTERS (String.get (String.length "(add 2 #)" - 1) "(add 2 #)") = false)
  /\ String.length "(add 2 #)" + 2 <= 11
  /\ finished (tokenizer 11 "(add 2 #)") = true.
Proof.
  assert (Hquote : forall i, String.get i "(add 2 #)" <> Some dquote).
  { intros i Hi. apply get_In in Hi. simpl in Hi. intuition discriminate. }
  assert (Hfuel : String.length "(add 2 #)" + 2 <= 11) by (simpl; lia).
  split; [exact Hquote|]. split; [right; reflexivity|]. split; [exact Hfuel|].
  apply (tokenizer_ends "(add 2 #)" 11 Hquote); [right; reflexivity|exact Hfuel].
Defined.


Example unbalanced_parser_sample :
  parser 10 [Token.mk TokenType.paren ")"] = Throw (TypeError "0")
  /\ parser 10 [Token.mk TokenType.name "add"] = Throw (TypeError "3").
Proof. vm_compute. auto. Qed.

(** * The claims *)

(** C1.  On the text [(add 2 (subtract 4 2))] the tokenizer returns the nine
    tokens of the test suite, the parser returns the expected source tree on
    them, the transformer returns the expected target tree on that tree,
    and the compiler returns the text [add(2, subtract(4, 2));].  This holds
    for any fuel from 30 on and whatever arrays exist before the run. *)
Theorem sample_pipeline (h : Heap) (fuel : nat) :
  30 <= fuel ->
  tokenizer fuel sample_input = Return sample_tokens
  /\ parser fuel sample_tokens = Return sample_ast
  /\ transformer h sample_ast = Return sample_newAst
  /\ compiler h fuel sample_input = Return sample_output.
Proof.
  intros Hfuel.
  assert (Htok : tokenizer fuel sample_input = Return sample_tokens).
  { rewrite (tokenizer_fuel 30 fuel) by (exact Hfuel || reflexivity).
    vm_compute. reflexivity. }
  assert (Hparse : parser fuel sample_tokens = Return sample_ast).
  { rewrite (parser_fuel 30 fuel) by (exact Hfuel || reflexivity).
    vm_compute. reflexivity. }
  repeat split; try assumption.
  - unfold sample_ast, new_ProgramNode. rewrite transformer_program by reflexivity.
    reflexivity.
  - rewrite (compiler_stages h fuel sample_input sample_tokens _ Htok Hparse)
      by reflexivity.
    vm_compute. reflexivity.
Qed.

Lemma sample_pipeline_witness :
  30 <= 30
  /\ tokenizer 30 sample_input = Return sample_tokens
  /\ parser 30 sample_tokens = Return sample_ast
  /\ transformer [] sample_ast = Return sample_newAst
  /\ compiler [] 30 sample_input = Return sample_output.
Proof. split; [lia|]. apply (sample_pipeline [] 30). lia. Defined.

(** C2 is broken by the code on a call with a string literal: the scan of
    the literal stops on the closing quote and does not skip it, the outer
    loop takes it for an opening quote, and the next scan runs past the end
    of the text, where it never stops.  No run of the compiler on
    [(add "x" 1)] returns or throws. *)
Theorem string_literal_is_never_compiled (h : Heap) (fuel : nat) :
  String.get 5 string_call_input = Some dquote
  /\ tokenizer fuel string_call_input = OutOfFuel
  /\ compiler h fuel string_call_input = OutOfFuel.
Proof.
  assert (Htok : tokenizer fuel string_call_input = OutOfFuel).
  { apply (tokenizer_quote fuel string_call_input 5); reflexivity. }
  split; [reflexivity|]. split; [exact Htok|].
  unfold compiler. rewrite Htok. reflexivity.
Qed.

(** C3, as stated, fails on a top-level literal: the text [2] is accepted,
    its only top-level expression is copied to the target tree without a
    statement around it, and the output is [2], with no statement
    terminator. *)
Lemma top_level_literal_is_not_a_statement :
  tokenizer 5 "2" = Return [Token.mk TokenType.number "2"]
  /\ parser 5 [Token.mk TokenType.number "2"]
     = Return (new_ProgramNode [new_NumberLiteral "2"])
  /\ transformer [] (new_ProgramNode [new_NumberLiteral "2"])
     = Return (new_ProgramNode [new_NumberLiteral "2"])
  /\ compiler [] 5 "2" = Return "2".
Proof. vm_compute. auto. Qed.

(** C3, amended.  For every input that the tokenizer and the parser accept,
    the source tree is a program of literals and calls; the transformer
    returns one entry for each top-level expression, in order: a statement
    around the mirrored call for a call, the bare copy for a literal; the
    compiler returns these entries' texts joined by newlines, where only the
    text of a top-level call ends with [;]; and no statement occurs inside a
    mirrored expression, so a nested call never gets a [;]. *)
Theorem top_level_statements (h : Heap) (fuel : nat) (input : string)
    (tokens : list Token.t) (ast : ASTNode) :
  tokenizer fuel input = Return tokens ->
  parser fuel tokens = Return ast ->
  exists body,
    ast = new_ProgramNode body
    /\ forallb source_expression body = true
    /\ transformer h ast = Return (new_ProgramNode (map (placed false) body))
    /\ compiler h fuel input = Return (join newline (map statement_text body))
    /\ Forall (fun node => statement_free (mirror node) = true) body.
Proof.
  intros Htok Hparse.
  destruct (parser_source _ _ _ Hparse) as (body & -> & Hsrc).
  exists body. split; [reflexivity|]. split; [exact Hsrc|].
  split; [apply transformer_program; exact Hsrc|].
  split; [apply (compiler_stages h fuel input tokens body Htok Hparse Hsrc)|].
  clear -Hsrc. induction body as [|node body IH]; constructor;
    simpl in Hsrc; apply andb_prop in Hsrc as [Hnode Hbody].
  - apply generate_mirror. exact Hnode.
  - apply IH. exact Hbody.
Qed.

Lemma top_level_statements_witness :
  tokenizer 30 sample_input = Return sample_tokens
  /\ parser 30 sample_tokens = Return sample_ast
  /\ exists body,
       sample_ast = new_ProgramNode body
       /\ forallb source_expression body = true
       /\ transformer [] sample_ast = Return (new_ProgramNode (map (placed false) body))
       /\ compiler [] 30 sample_input = Return (join newline (map statement_text body))
       /\ Forall (fun node => statement_free (mirror node) = true) body.
Proof.
  assert (H1 : tokenizer 30 sample_input = Return sample_tokens) by (vm_compute; reflexivity).
  assert (H2 : parser 30 sample_tokens = Return sample_ast) by (vm_compute; reflexivity).
  split; [exact H1|]. split; [exact H2|].
  exact (top_level_statements [] 30 sample_input sample_tokens sample_ast H1 H2).
Defined.

(** C4 is broken by the code on a string literal that is not closed: past
    the end of the text [char] is [undefined], which is not a double quote,
    so the scan goes on for ever; no [TypeError] is thrown. *)
Theorem open_string_is_never_rejected (fuel : nat) :
  tokenizer fuel open_string_input = OutOfFuel.
Proof. apply (tokenizer_quote fuel open_string_input 0); reflexivity. Qed.

(** C5 is broken by the code when a number follows the opening
    parenthesis: the parser takes the text of that token for the name of the
    call without looking at its kind, and the compiler goes on to print a
    call of [2]. *)
Theorem call_named_by_a_number (h : Heap) (fuel : nat) :
  tokenizer (10 + fuel) number_call_input = Return number_call_tokens
  /\ parser (10 + fuel) number_call_tokens
     = Return (new_ProgramNode [new_CallExpression "2" [new_NumberLiteral "3"]])
  /\ compiler h (10 + fuel) number_call_input = Return "2(3);".
Proof.
  assert (Htok : tokenizer (10 + fuel) number_call_input = Return number_call_tokens).
  { rewrite (tokenizer_fuel 10 (10 + fuel)) by (lia || reflexivity).
    vm_compute. reflexivity. }
  assert (Hparse : parser (10 + fuel) number_call_tokens
            = Return (new_ProgramNode [new_CallExpression "2" [new_NumberLiteral "3"]])).
  { rewrite (parser_fuel 10 (10 + fuel)) by (lia || reflexivity).
    vm_compute. reflexivity. }
  repeat split; try assumption.
  rewrite (compiler_stages h _ _ _ _ Htok Hparse) by reflexivity.
  vm_compute. reflexivity.
Qed.

(** C6 is broken by the code on a call that is not closed: the parser reads
    [tokens[current]] past the end of the array, gets [undefined], and the
    read of a field of it makes the engine throw; this is not the
    [TypeError] that names a token kind. *)
Theorem parser_reads_past_the_end (fuel : nat) :
  open_call_tokens !! 1 = None
  /\ parser (5 + fuel) open_call_tokens = Throw UndefinedAccess
  /\ unclosed_call_tokens !! 3 = None
  /\ parser (5 + fuel) unclosed_call_tokens = Throw UndefinedAccess.
Proof.
  repeat split;
    rewrite (parser_fuel 5 (5 + fuel)) by (lia || reflexivity);
    vm_compute; reflexivity.
Qed.

(** C7 is broken by the code on a text that ends with a letter: past the
    end of the text [char] is [undefined], whose string form matches
    [LETTERS], so the scan of the name goes on for ever.  It is broken in
    the same way on a text that ends inside a string literal, where
    [undefined] is not a double quote. *)
Theorem trailing_name_is_never_tokenized (fuel : nat) :
  test LETTERS None = true
  /\ tokenizer fuel name_input = OutOfFuel
  /\ negb (char_is dquote None) = true
  /\ tokenizer fuel open_string_input = OutOfFuel.
Proof.
  split; [reflexivity|]. split.
  - destruct fuel as [|fuel]; [reflexivity|].
    unfold tokenizer, name_input. simpl.
    change (Some "a"%char) with (String.get 0 "abc").
    rewrite scan_forever; [reflexivity|].
    intros [|[|[|j]]] _; reflexivity.
  - split; [reflexivity|].
    apply (tokenizer_quote fuel open_string_input 0); reflexivity.
Qed.

(** C8.  One rule for each kind of target node: a number literal is its
    text; a string literal is its text between double quotes, unchanged; an
    identifier is its name; a call is the text of its callee, an opening
    parenthesis, the texts of its arguments joined with a comma and a
    space, and a closing parenthesis; a statement is the text of its
    expression and a semicolon; a program is the texts of its body joined
    with a newline.  [join] puts the separator between consecutive texts
    only, and the generator returns on every target tree. *)
Theorem generateJsCode_rules :
  (forall c value, generateJsCode (NumberLiteral c value) = Return value)
  /\ (forall c value,
        generateJsCode (StringLiteral c value)
        = Return (String dquote value +:+ String dquote EmptyString))
  /\ (forall c name, generateJsCode (Identifier c name) = Return name)
  /\ (forall c callee args head texts,
        generateJsCode callee = Return head ->
        Forall2 (fun arg text => generateJsCode arg = Return text) args texts ->
        generateJsCode (JsCallExpression c callee args)
        = Return (head +:+ "(" +:+ join ", " texts +:+ ")"))
  /\ (forall c expression text,
        generateJsCode expression = Return text ->
        generateJsCode (JsExpressionStatement c expression) = Return (text +:+ ";"))
  /\ (forall c body texts,
        Forall2 (fun node text => generateJsCode node = Return text) body texts ->
        generateJsCode (ProgramNode c body) = Return (join newline texts))
  /\ (forall sep, join sep [] = EmptyString)
  /\ (forall sep text, join sep [text] = text)
  /\ (forall sep text text' texts,
        join sep (text :: text' :: texts) = text +:+ sep +:+ join sep (text' :: texts))
  /\ (forall node, target_node node = true -> returns (generateJsCode node) = true).
Proof.
  repeat split; try reflexivity.
  - intros c callee args head texts Hhead Hargs. cbn. rewrite Hhead. cbn.
    fold (mapM generateJsCode args). rewrite (mapM_returns _ _ _ Hargs). reflexivity.
  - intros c expression text Htext. cbn. rewrite Htext. reflexivity.
  - intros c body texts Hbody. cbn.
    fold (mapM generateJsCode body). rewrite (mapM_returns _ _ _ Hbody). reflexivity.
  - intros node Htarget. pattern node. revert node Htarget.
    apply target_node_ind; try reflexivity.
    + intros c c' name args IH. cbn. fold (mapM generateJsCode args).
      pose proof (mapM_total _ _ IH) as Hargs.
      destruct (mapM generateJsCode args); try discriminate. reflexivity.
    + intros c expression IH. cbn.
      destruct (generateJsCode expression); try discriminate. reflexivity.
    + intros c body IH. cbn. fold (mapM generateJsCode body).
      pose proof (mapM_total _ _ IH) as Hbody.
      destruct (mapM generateJsCode body); try discriminate. reflexivity.
Qed.

Lemma generateJsCode_rules_witness :
  generateJsCode
    (new_JsExpressionStatement
       (new_JsCallExpression (new_Identifier "add")
          [new_NumberLiteral "2"; new_StringLiteral "x"]))
  = Return (("add" +:+ "(" +:+ join ", " ["2"; quoted "x"] +:+ ")") +:+ ";").
Proof.
  destruct generateJsCode_rules
    as (Hnum & Hstr & Hid & Hcall & Hstmt & _).
  apply Hstmt. apply Hcall; [apply Hid|].
  constructor; [apply Hnum|]. constructor; [apply Hstr|]. constructor.
Defined.

(** C9, as stated, fails on the sample: before the run no node of the source
    tree has a [_context]; after [transformer] has returned, the program and
    its two calls still hold the arrays of the target tree. *)
Lemma context_is_kept_after_transformer :
  call_slots sample_ast = [None; None; None]
  /\ (t ← transformer_run [] sample_ast; Return (call_slots (ast_after t)))
     = Return [Some 0; Some 1; Some 2].
Proof. vm_compute. auto. Qed.

(** C9, amended.  On a program of literals and calls, whatever its
    [_context] fields hold and whatever arrays exist, a run of [transformer]
    returns and leaves the source tree with the same tags, payloads and
    children; the [_context] of the literals is untouched; the [_context] of
    the program and of each call holds one of the arrays created by this
    run, each a different one, in the order of the visit, and as many
    arrays were created as there are such nodes; the arrays that existed
    before are unchanged.  The association is not removed when the run
    ends. *)
Theorem transformer_frame (h : Heap) (c : option ref) (body : list ASTNode) :
  forallb source_expression body = true ->
  exists t,
    transformer_run h (ProgramNode c body) = Return t
    /\ structure (ast_after t) = structure (ProgramNode c body)
    /\ literal_slots (ast_after t) = literal_slots (ProgramNode c body)
    /\ call_slots (ast_after t) = map Some (seq (length h) (S (calls_in body)))
    /\ length (heap_after t) = length h + S (calls_in body)
    /\ forall r, r < length h -> heap_after t !! r = h !! r.
Proof.
  intros Hsrc.
  destruct (transformer_source h c body Hsrc) as (h' & Hrun & Hlen & Hframe).
  destruct (with_slots_in_source body (S (length h)) Hsrc) as (Hs & Hl & Hc).
  eexists. split; [exact Hrun|]. simpl.
  rewrite Hs, Hl, Hc. repeat split; [lia|exact Hframe].
Qed.

Lemma transformer_frame_witness :
  forallb source_expression
    [new_CallExpression "add" [new_NumberLiteral "2"; new_StringLiteral "x"]] = true
  /\ exists t,
       transformer_run [[]] (ProgramNode (Some 0)
         [new_CallExpression "add" [new_NumberLiteral "2"; new_StringLiteral "x"]])
       = Return t
       /\ structure (ast_after t)
          = structure (ProgramNode (Some 0)
              [new_CallExpression "add" [new_NumberLiteral "2"; new_StringLiteral "x"]])
       /\ literal_slots (ast_after t)
          = literal_slots (ProgramNode (Some 0)
              [new_CallExpression "add" [new_NumberLiteral "2"; new_StringLiteral "x"]])
       /\ call_slots (ast_after t)
          = map Some (seq (length [[]:list JsObject])
              (S (calls_in [new_CallExpression "add"
                              [new_NumberLiteral "2"; new_StringLiteral "x"]])))
       /\ length (heap_after t)
          = length [[]:list JsObject]
            + S (calls_in [new_CallExpression "add"
                             [new_NumberLiteral "2"; new_StringLiteral "x"]])
       /\ forall r, r < length [[]:list JsObject] ->
            heap_after t !! r = [[]:list JsObject] !! r.
Proof.
  split; [reflexivity|].
  apply (transformer_frame [[]] (Some 0)
           [new_CallExpression "add" [new_NumberLiteral "2"; new_StringLiteral "x"]]).
  reflexivity.
Defined.

(** C10.  The compiler is a function of its input text alone: two runs on
    the same text that are not cut, whatever their fuel and whatever arrays
    exist in the store when each starts, return the same text or throw the
    same exception. *)
Theorem compiler_deterministic (h1 h2 : Heap) (fuel1 fuel2 : nat) (input : string) :
  finished (compiler h1 fuel1 input) = true ->
  finished (compiler h2 fuel2 input) = true ->
  compiler h1 fuel1 input = compiler h2 fuel2 input.
Proof.
  intros Hfin1 Hfin2.
  rewrite <- (compiler_fuel_store h1 h1 fuel1 (Nat.max fuel1 fuel2) input)
    by (lia || exact Hfin1).
  apply compiler_fuel_store; [lia|exact Hfin2].
Qed.

Lemma compiler_deterministic_witness :
  finished (compiler [] 30 sample_input) = true
  /\ finished (compiler [[ONumberLiteral "7"]] 45 sample_input) = true
  /\ compiler [] 30 sample_input = compiler [[ONumberLiteral "7"]] 45 sample_input.
Proof.
  assert (H1 : finished (compiler [] 30 sample_input) = true) by (vm_compute; reflexivity).
  assert (H2 : finished (compiler [[ONumberLiteral "7"]] 45 sample_input) = true)
    by (vm_compute; reflexivity).
  split; [exact H1|]. split; [exact H2|].
  exact (compiler_deterministic [] [[ONumberLiteral "7"]] 30 45 sample_input H1 H2).
Defined.

(** * Further properties of the code *)

(** ** The tokenizer *)

Lemma get_undefined (s : string) (n : nat) :
  String.get n s = None -> String.length s <= n.
Proof.
  intros Hget. destruct (Nat.le_gt_cases (String.length s) n) as [|Hlt]; [assumption|].
  destruct (get_defined s n Hlt) as [a Ha]. congruence.
Qed.

(** What an inner loop over a class returns: the characters it went over
    are appended to [value], and all are of the class. *)
Lemma scan_collects re fuel input : forall current value q v,
  scan (test re) fuel input (String.get current input) current value = Return (q, v) ->
  exists run,
    v = value +:+ run /\ all re run = true /\ q = current + String.length run.
Proof.
  induction fuel as [|fuel IH]; intros current value q v Hscan; [discriminate|].
  pose proof (scan_stops _ _ _ _ _ _ _ Hscan) as (Hle & Hstop & Hbetween).
  simpl in Hscan.
  destruct (test re (String.get current input)) eqn:Hc.
  - destruct (String.get current input) as [a|] eqn:Hget.
    + rewrite test_defined in Hc.
      destruct (IH _ _ _ _ Hscan) as (run & -> & Hall & ->).
      exists (String a run). unfold toString.
      rewrite append_assoc, append_cons, append_nil.
      split; [reflexivity|]. split; [unfold all in *; simpl; rewrite Hc; exact Hall|].
      simpl. lia.
    + apply get_undefined in Hget.
      rewrite (get_past_end input q) in Hstop by lia. congruence.
  - injection Hscan as <- <-. exists EmptyString.
    rewrite append_empty. split; [reflexivity|]. split; [reflexivity|]. simpl. lia.
Qed.

Lemma tokenizer_loop_lexemes fuel input : forall current tokens tokens',
  forallb lexeme tokens = true ->
  tokenizer_loop fuel input current tokens = Return tokens' ->
  forallb lexeme tokens' = true.
Proof.
  induction fuel as [|fuel IH]; intros current tokens tokens' Hlex; simpl; [discriminate|].
  destruct (current <? String.length input); [|intros [= <-]; exact Hlex].
  destruct (char_is lparen (String.get current input)
            || char_is rparen (String.get current input)) eqn:Hparen.
  { apply IH. rewrite forallb_app, Hlex. simpl.
    destruct (String.get current input) as [a|]; [|discriminate]. simpl in Hparen.
    apply orb_prop in Hparen as [Heq|Heq]; apply Ascii.eqb_eq in Heq; subst a; reflexivity. }
  destruct (test WHITESPACE (String.get current input)); [apply IH; exact Hlex|].
  destruct (test NUMBERS (String.get current input)) eqn:Hnum.
  { destruct (scan (test NUMBERS) fuel input _ current EmptyString)
      as [[q v]| |] eqn:Hscan; try discriminate.
    rewrite bind_unit. apply IH. rewrite forallb_app, Hlex. simpl.
    pose proof (scan_stops _ _ _ _ _ _ _ Hscan) as (_ & Hstop & _).
    destruct (scan_collects _ _ _ _ _ _ _ Hscan) as (run & -> & Hall & ->).
    rewrite append_nil. unfold lexeme. simpl. rewrite Hall.
    destruct run as [|a run]; [|reflexivity].
    simpl in Hstop. rewrite Nat.add_0_r in Hstop. congruence. }
  destruct (char_is dquote (String.get current input)).
  { destruct (scan _ fuel input _ (S current) EmptyString)
      as [[q v]| |] eqn:Hscan; try discriminate.
    rewrite bind_unit. intros Hret.
    apply scan_stops in Hscan as (_ & Hstop & _).
    destruct (String.get q input) as [a|] eqn:Hget; [|discriminate].
    simpl in Hstop. apply negb_false_iff, Ascii.eqb_eq in Hstop as ->.
    pose proof (tokenizer_loop_quote_ahead fuel input q
                  (tokens ++ [Token.mk TokenType.string v]) q (le_n q) Hget) as Hnever.
    rewrite Hret in Hnever. discriminate. }
  destruct (test LETTERS (String.get current input)) eqn:Hlet; [|discriminate].
  destruct (scan (test LETTERS) fuel input _ current EmptyString)
    as [[q v]| |] eqn:Hscan; try discriminate.
  rewrite bind_unit. apply IH. rewrite forallb_app, Hlex. simpl.
  pose proof (scan_stops _ _ _ _ _ _ _ Hscan) as (_ & Hstop & _).
  destruct (scan_collects _ _ _ _ _ _ _ Hscan) as (run & -> & Hall & ->).
  rewrite append_nil. unfold lexeme. simpl. rewrite Hall.
  destruct run as [|a run]; [|reflexivity].
  simpl in Hstop. rewrite Nat.add_0_r in Hstop. congruence.
Qed.

(** X1.  Every token that the tokenizer returns is a parenthesis with the
    text [(] or [)], a number token whose text is a non-empty run of
    digits, or a name token whose text is a non-empty run of letters.  In
    particular no returned sequence holds a string token. *)
Theorem tokenizer_returns_lexemes (fuel : nat) (input : string)
    (tokens : list Token.t) :
  tokenizer fuel input = Return tokens ->
  forallb lexeme tokens = true.
Proof. apply tokenizer_loop_lexemes. reflexivity. Qed.

Lemma tokenizer_returns_lexemes_witness :
  tokenizer 30 sample_input = Return sample_tokens
  /\ forallb lexeme sample_tokens = true.
Proof.
  assert (H : tokenizer 30 sample_input = Return sample_tokens) by (vm_compute; reflexivity).
  split; [exact H|]. exact (tokenizer_returns_lexemes 30 sample_input sample_tokens H).
Defined.




(** X3.  On a text with a double quote anywhere in it neither the tokenizer
    nor the compiler returns, whatever the fuel: the run throws on an
    unknown character before the quote, or it never ends. *)
Theorem double_quote_never_returns (h : Heap) (fuel : nat) (input : string) (i : nat) :
  String.get i input = Some dquote ->
  returns (tokenizer fuel input) = false
  /\ returns (compiler h fuel input) = false.
Proof.
  intros Hi.
  assert (Htok : returns (tokenizer fuel input) = false).
  { apply (tokenizer_loop_quote_ahead fuel input 0 [] i); [lia|exact Hi]. }
  split; [exact Htok|]. unfold compiler.
  destruct (tokenizer fuel input); [discriminate|reflexivity|reflexivity].
Qed.

Lemma double_quote_never_returns_witness :
  String.get 5 string_call_input = Some dquote
  /\ returns (tokenizer 100 string_call_input) = false
  /\ returns (compiler [] 100 string_call_input) = false.
Proof.
  split; [reflexivity|].
  apply (double_quote_never_returns [] 100 string_call_input 5). reflexivity.
Defined.

(** X4.  Whitespace only separates tokens: on a text spelled by parentheses,
    digit runs and letter runs, each after any amount of whitespace (none
    is needed unless a digit run follows a digit run or a letter run follows
    a letter run), the tokenizer returns exactly these tokens, in order. *)
Theorem tokenizer_reads_spelling (items : list (string * Token.t)) (tail : string)
    (fuel : nat) :
  well_spelled items tail = true ->
  String.length (spell items tail) + 2 <= fuel ->
  tokenizer fuel (spell items tail) = Return (map snd items).
Proof. apply tokenizer_spell. Qed.

Lemma tokenizer_reads_spelling_witness :
  well_spelled sample_items " " = true
  /\ String.length (spell sample_items " ") + 2 <= 40
  /\ tokenizer 40 (spell sample_items " ") = Return (map snd sample_items).
Proof.
  assert (Hfuel : String.length (spell sample_items " ") + 2 <= 40)
    by (vm_compute; lia).
  split; [reflexivity|]. split; [exact Hfuel|].
  apply (tokenizer_reads_spelling sample_items " " 40); [reflexivity|exact Hfuel].
Defined.

(** ** The parser *)

Lemma parser_ends_witness :
  2 * length unclosed_call_tokens + 2 <= 8
  /\ ((exists body, parser 8 unclosed_call_tokens = Return (new_ProgramNode body)
                    /\ forallb source_expression body = true)
      \/ (exists kind, parser 8 unclosed_call_tokens
                       = Throw (TypeError (TokenType.toString kind)))
      \/ parser 8 unclosed_call_tokens = Throw UndefinedAccess).
Proof.
  assert (Hfuel : 2 * length unclosed_call_tokens + 2 <= 8) by (simpl; lia).
  split; [exact Hfuel|]. exact (parser_ends unclosed_call_tokens 8 Hfuel).
Defined.

(** X8.  Printing and parsing: on the tokens of any program of literals and
    calls the parser returns that program, with every [_context] undefined,
    given fuel for the number of tokens. *)
Theorem parser_reads_tokens_back (body : list ASTNode) (fuel : nat) :
  forallb source_expression body = true ->
  length (flat_map tokens_of body) + 1 <= fuel ->
  parser fuel (flat_map tokens_of body) = Return (new_ProgramNode (map structure body)).
Proof. apply parser_tokens_of. Qed.

Lemma parser_reads_tokens_back_witness :
  forallb source_expression
    [CallExpression (Some 3) "f" [new_StringLiteral "x"; new_CallExpression "g" []];
     new_NumberLiteral "7"] = true
  /\ length (flat_map tokens_of
       [CallExpression (Some 3) "f" [new_StringLiteral "x"; new_CallExpression "g" []];
        new_NumberLiteral "7"]) + 1 <= 9
  /\ parser 9 (flat_map tokens_of
       [CallExpression (Some 3) "f" [new_StringLiteral "x"; new_CallExpression "g" []];
        new_NumberLiteral "7"])
     = Return (new_ProgramNode (map structure
         [CallExpression (Some 3) "f" [new_StringLiteral "x"; new_CallExpression "g" []];
          new_NumberLiteral "7"])).
Proof.
  assert (Hfuel : length (flat_map tokens_of
       [CallExpression (Some 3) "f" [new_StringLiteral "x"; new_CallExpression "g" []];
        new_NumberLiteral "7"]) + 1 <= 9) by (simpl; lia).
  split; [reflexivity|]. split; [exact Hfuel|].
  apply parser_reads_tokens_back; [reflexivity|exact Hfuel].
Defined.

Lemma walk_fresh_both fuel tokens :
  (forall current node current',
     walk fuel tokens current = Return (node, current') ->
     structure node = node)
  /\ (forall current params params' current',
     map structure params = params ->
     walk_params fuel tokens current params = Return (params', current') ->
     map structure params' = params').
Proof.
  induction fuel as [|fuel [IHwalk IHparams]]; split; intros *; simpl; try discriminate.
  - destruct (tokens !! current) as [token|]; [|discriminate].
    destruct (TokenType.eqb _ TokenType.number); [intros [= <- <-]; reflexivity|].
    destruct (TokenType.eqb _ TokenType.string); [intros [= <- <-]; reflexivity|].
    destruct (is_paren "(" token); [|discriminate].
    destruct (tokens !! S current) as [token'|]; [|discriminate].
    intros Hbind. apply bind_returns in Hbind as ([params c] & Hparams & [= <- <-]).
    simpl. f_equal. apply (IHparams _ [] _ _ eq_refl Hparams).
  - intros Hfresh. destruct (tokens !! current) as [token|]; [|discriminate].
    destruct (not_closing token); [|intros [= <- <-]; exact Hfresh].
    intros Hbind. apply bind_returns in Hbind as ([node c] & Hwalk & Hrest).
    apply (IHparams _ _ _ _) in Hrest; [exact Hrest|].
    rewrite map_app, Hfresh. simpl. rewrite (IHwalk _ _ _ Hwalk). reflexivity.
Qed.

Lemma parser_loop_fresh fuel tokens : forall current body ast,
  map structure body = body ->
  parser_loop fuel tokens current body = Return ast ->
  structure ast = ast.
Proof.
  induction fuel as [|fuel IH]; intros current body ast Hfresh; simpl; [discriminate|].
  destruct (current <? length tokens).
  - intros Hbind. apply bind_returns in Hbind as ([node c] & Hwalk & Hrest).
    apply IH in Hrest; [exact Hrest|].
    rewrite map_app, Hfresh. simpl.
    rewrite (proj1 (walk_fresh_both fuel tokens) _ _ _ Hwalk). reflexivity.
  - intros [= <-]. simpl. unfold new_ProgramNode. rewrite Hfresh. reflexivity.
Qed.

(** X9.  Whatever the tokens, a tree that the parser returns is one
    [ProgramNode] over literals and calls only, and no node of it has a
    [_context]. *)
Theorem parser_returns_fresh_program (fuel : nat) (tokens : list Token.t)
    (ast : ASTNode) :
  parser fuel tokens = Return ast ->
  exists body,
    ast = new_ProgramNode body
    /\ forallb source_expression body = true
    /\ structure ast = ast.
Proof.
  intros Hparse. destruct (parser_source _ _ _ Hparse) as (body & -> & Hsrc).
  exists body. split; [reflexivity|]. split; [exact Hsrc|].
  apply (parser_loop_fresh fuel tokens 0 [] _ eq_refl Hparse).
Qed.

Lemma parser_returns_fresh_program_witness :
  parser 30 sample_tokens = Return sample_ast
  /\ exists body,
       sample_ast = new_ProgramNode body
       /\ forallb source_expression body = true
       /\ structure sample_ast = sample_ast.
Proof.
  assert (H : parser 30 sample_tokens = Return sample_ast) by (vm_compute; reflexivity).
  split; [exact H|]. exact (parser_returns_fresh_program 30 sample_tokens sample_ast H).
Defined.

Lemma not_closing_false token :
  not_closing token = false -> Token.value token = ")".
Proof.
  unfold not_closing. destruct (TokenType.eqb _ _); simpl; [|discriminate].
  intros H. apply negb_false_iff, String.eqb_eq in H. exact H.
Qed.

Lemma walk_values_both fuel tokens :
  (forall current node current',
     walk fuel tokens current = Return (node, current') ->
     map Token.value (tokens_of node) ++ map Token.value (drop current' tokens)
     = map Token.value (drop current tokens))
  /\ (forall current params params' current',
     walk_params fuel tokens current params = Return (params', current') ->
     exists new,
       params' = params ++ new
       /\ map Token.value (flat_map tokens_of new)
            ++ ")" :: map Token.value (drop (S current') tokens)
          = map Token.value (drop current tokens)).
Proof.
  induction fuel as [|fuel [IHwalk IHparams]]; split; intros *; simpl; try discriminate.
  - destruct (tokens !! current) as [token|] eqn:Htoken; [|discriminate].
    rewrite (drop_S _ _ _ Htoken).
    destruct (TokenType.eqb _ TokenType.number); [intros [= <- <-]; reflexivity|].
    destruct (TokenType.eqb _ TokenType.string); [intros [= <- <-]; reflexivity|].
    destruct (is_paren "(" token) eqn:Hopen; [|discriminate].
    destruct (tokens !! S current) as [token'|] eqn:Htoken'; [|discriminate].
    rewrite (drop_S _ _ _ Htoken').
    intros Hbind. apply bind_returns in Hbind as ([params c] & Hparams & [= <- <-]).
    destruct (IHparams _ _ _ _ Hparams) as (new & -> & Hvalues).
    unfold is_paren in Hopen. apply andb_prop in Hopen as [_ Hopen].
    apply String.eqb_eq in Hopen. simpl. rewrite Hopen. f_equal. f_equal.
    rewrite map_app, <- app_assoc. exact Hvalues.
  - destruct (tokens !! current) as [token|] eqn:Htoken; [|discriminate].
    destruct (not_closing token) eqn:Hclose.
    + intros Hbind. apply bind_returns in Hbind as ([node c] & Hwalk & Hrest).
      destruct (IHparams _ _ _ _ Hrest) as (new & -> & Hvalues).
      exists (node :: new). rewrite <- app_assoc. split; [reflexivity|].
      simpl. rewrite map_app, <- app_assoc, Hvalues. apply (IHwalk _ _ _ Hwalk).
    + intros [= <- <-]. exists []. rewrite app_nil_r. split; [reflexivity|].
      rewrite (drop_S _ _ _ Htoken). simpl. rewrite (not_closing_false _ Hclose).
      reflexivity.
Qed.

Lemma parser_loop_values fuel tokens : forall current body ast,
  parser_loop fuel tokens current body = Return ast ->
  exists new,
    ast = new_ProgramNode (body ++ new)
    /\ map Token.value (flat_map tokens_of new) = map Token.value (drop current tokens).
Proof.
  induction fuel as [|fuel IH]; intros current body ast; simpl; [discriminate|].
  destruct (Nat.ltb_spec current (length tokens)) as [Hlt|Hge].
  - intros Hbind. apply bind_returns in Hbind as ([node c] & Hwalk & Hrest).
    destruct (IH _ _ _ Hrest) as (new & -> & Hvalues).
    exists (node :: new). rewrite <- app_assoc. split; [reflexivity|].
    simpl. rewrite map_app, Hvalues.
    apply (proj1 (walk_values_both fuel tokens) _ _ _ Hwalk).
  - intros [= <-]. exists []. rewrite app_nil_r, drop_ge by lia.
    split; reflexivity.
Qed.

(** X10.  The parser drops no token and adds none: the texts of the tokens
    of the tree it returns, in order, are the texts of the tokens it was
    given. *)
Theorem parser_keeps_token_texts (fuel : nat) (tokens : list Token.t)
    (body : list ASTNode) :
  parser fuel tokens = Return (new_ProgramNode body) ->
  map Token.value (flat_map tokens_of body) = map Token.value tokens.
Proof.
  intros Hparse.
  destruct (parser_loop_values fuel tokens 0 [] _ Hparse) as (new & Heq & Hvalues).
  injection Heq as ->. exact Hvalues.
Qed.

Lemma parser_keeps_token_texts_witness :
  parser 10 number_call_tokens
  = Return (new_ProgramNode [new_CallExpression "2" [new_NumberLiteral "3"]])
  /\ map Token.value
       (flat_map tokens_of [new_CallExpression "2" [new_NumberLiteral "3"]])
     = map Token.value number_call_tokens.
Proof.
  assert (H : parser 10 number_call_tokens
              = Return (new_ProgramNode [new_CallExpression "2" [new_NumberLiteral "3"]]))
    by (vm_compute; reflexivity).
  split; [exact H|]. exact (parser_keeps_token_texts 10 number_call_tokens _ H).
Defined.

Lemma parser_loop_prefix body :
  forallb source_expression body = true ->
  forall fuel tokens current acc,
    at_tokens tokens current (flat_map tokens_of body) ->
    length (flat_map tokens_of body) <= fuel ->
    parser_loop (length body + fuel) tokens current acc
    = parser_loop fuel tokens (current + length (flat_map tokens_of body))
        (acc ++ map structure body).
Proof.
  induction body as [|node body IH]; intros Hsrc fuel tokens current acc Hat Hfuel; simpl in *.
  - rewrite Nat.add_0_r, app_nil_r. reflexivity.
  - apply andb_prop in Hsrc as [Hnode Hbody].
    destruct (tokens_of_head node Hnode) as (token & expected & Hhead & _).
    rewrite length_app in Hfuel.
    apply at_tokens_app in Hat as [Hat_node Hat_body].
    assert (Hhere : tokens !! current = Some token).
    { apply (at_tokens_head _ _ _ expected). rewrite <- Hhead. exact Hat_node. }
    apply lookup_lt_Some in Hhere.
    rewrite (proj2 (Nat.ltb_lt _ _)) by exact Hhere.
    rewrite (walk_tokens_of node Hnode _ tokens current Hat_node) by lia.
    rewrite bind_unit.
    rewrite (IH Hbody fuel tokens _ _ Hat_body) by lia.
    rewrite <- app_assoc, length_app, Nat.add_assoc. reflexivity.
Qed.

(** X11.  After any complete expressions, a token that cannot start an
    expression (a name, or a parenthesis that is not an opening one, such as
    a closing parenthesis too many) makes the parser throw the [TypeError]
    whose message is the number of the kind of that token. *)
Theorem parser_rejects_stray_token (body : list ASTNode) (token : Token.t)
    (rest : list Token.t) (fuel : nat) :
  forallb source_expression body = true ->
  stray token = true ->
  length body + length (flat_map tokens_of body) + 2 <= fuel ->
  parser fuel (flat_map tokens_of body ++ token :: rest)
  = Throw (TypeError (TokenType.toString (Token.type token))).
Proof.
  intros Hsrc Hstray Hfuel. unfold parser.
  replace fuel with (length body + (fuel - length body)) by lia.
  rewrite (parser_loop_prefix body Hsrc) by
    (try lia; intros i t Hi; simpl; apply lookup_app_l_Some; exact Hi).
  destruct (fuel - length body) as [|[|fuel']] eqn:Hrest; try lia. simpl.
  rewrite length_app. simpl.
  rewrite (proj2 (Nat.ltb_lt _ _)) by lia.
  rewrite list_lookup_middle by reflexivity.
  unfold stray in Hstray.
  apply andb_prop in Hstray as [Hstray Hopen].
  apply andb_prop in Hstray as [Hnum Hstr].
  apply negb_true_iff in Hnum, Hstr, Hopen. rewrite Hnum, Hstr, Hopen.
  reflexivity.
Qed.

Lemma parser_rejects_stray_token_witness :
  forallb source_expression [new_CallExpression "add" [new_NumberLiteral "2"]] = true
  /\ stray (Token.mk TokenType.paren ")") = true
  /\ length [new_CallExpression "add" [new_NumberLiteral "2"]]
     + length (flat_map tokens_of [new_CallExpression "add" [new_NumberLiteral "2"]]) + 2
     <= 7
  /\ parser 7 (flat_map tokens_of [new_CallExpression "add" [new_NumberLiteral "2"]]
               ++ Token.mk TokenType.paren ")" :: [Token.mk TokenType.number "1"])
     = Throw (TypeError (TokenType.toString
                (Token.type (Token.mk TokenType.paren ")")))).
Proof.
  assert (Hfuel : length [new_CallExpression "add" [new_NumberLiteral "2"]]
     + length (flat_map tokens_of [new_CallExpression "add" [new_NumberLiteral "2"]]) + 2
     <= 7) by (simpl; lia).
  split; [reflexivity|]. split; [reflexivity|]. split; [exact Hfuel|].
  apply parser_rejects_stray_token; [reflexivity|reflexivity|exact Hfuel].
Defined.

(** ** The traverser *)

Lemma ASTNode_children_ind (P : ASTNode -> Prop) :
  (forall c value, P (NumberLiteral c value)) ->
  (forall c value, P (StringLiteral c value)) ->
  (forall c name params, Forall P params -> P (CallExpression c name params)) ->
  (forall c body, Forall P body -> P (ProgramNode c body)) ->
  (forall c name, P (Identifier c name)) ->
  (forall c expression, P (JsExpressionStatement c expression)) ->
  (forall c callee args, P (JsCallExpression c callee args)) ->
  forall node, P node.
Proof.
  intros Hnum Hstr Hcall Hprog Hid Hstmt Hjs. fix IH 1.
  intros [c v|c v|c name params|c body|c name|c e|c callee args].
  - apply Hnum.
  - apply Hstr.
  - apply Hcall. induction params as [|p params IHparams]; constructor;
      [apply IH|exact IHparams].
  - apply Hprog. induction body as [|p body IHbody]; constructor;
      [apply IH|exact IHbody].
  - apply Hid.
  - apply Hstmt.
  - apply Hjs.
Qed.

Lemma set_context_same node : set_context (_context node) node = node.
Proof. destruct node; reflexivity. Qed.

Lemma traverseArray_no_methods nodes :
  Forall (fun node => forall parent h,
    traverseNode no_methods node parent h
    = if traversable node then Return (node, h) else Throw UndefinedAccess) nodes ->
  forall parent h,
    traverseArray (traverseNode no_methods) nodes parent h
    = if forallb traversable nodes then Return (nodes, h) else Throw UndefinedAccess.
Proof.
  induction 1 as [|node nodes Hnode _ IH]; intros parent h; simpl; [reflexivity|].
  rewrite Hnode. destruct (traversable node); [|reflexivity].
  rewrite bind_unit, IH. destruct (forallb traversable nodes); reflexivity.
Qed.

Lemma traverseNode_no_methods node : forall parent h,
  traverseNode no_methods node parent h
  = if traversable node then Return (node, h) else Throw UndefinedAccess.
Proof.
  pattern node. revert node. apply ASTNode_children_ind; try reflexivity.
  - intros c name params IH parent h. cbn.
    rewrite (traverseArray_no_methods params IH).
    destruct (forallb traversable params); reflexivity.
  - intros c body IH parent h. cbn.
    rewrite (traverseArray_no_methods body IH).
    destruct (forallb traversable body); reflexivity.
Qed.

(** X12.  The traverser does nothing of its own: with a visitor that has no
    methods it returns the tree and the store as they were, on any tree;
    unless the walk, which goes below programs and calls only, meets a
    [JsCallExpression], on which it throws. *)
Theorem traverser_without_methods (ast : ASTNode) (h : Heap) :
  traverser no_methods ast h
  = if traversable ast then Return (ast, h) else Throw UndefinedAccess.
Proof. apply traverseNode_no_methods. Qed.

Lemma alter_append (r : nat) (h : list (list JsObject)) (os os' : list JsObject) :
  alter (fun log => log ++ os') r (alter (fun log => log ++ os) r h)
  = alter (fun log => log ++ (os ++ os')) r h.
Proof.
  rewrite list_alter_alter_eq. apply list_alter_ext; [|reflexivity].
  intros log. simpl. rewrite <- app_assoc. reflexivity.
Qed.

Lemma traverseArray_logging r nodes :
  Forall (fun node => traversable node = true -> forall parent h,
    traverseNode (logging r) node parent h
    = Return (node, alter (fun log => log ++ expected_log parent node) r h)) nodes ->
  forallb traversable nodes = true ->
  forall parent h,
    traverseArray (traverseNode (logging r)) nodes parent h
    = Return (nodes,
              alter (fun log => log ++ flat_map (expected_log (Some parent)) nodes) r h).
Proof.
  induction 1 as [|node nodes Hnode _ IH]; intros Hall parent h; simpl.
  - rewrite list_alter_id; [reflexivity|]. intros log. apply app_nil_r.
  - simpl in Hall. apply andb_prop in Hall as [Hn Hns].
    rewrite (Hnode Hn), bind_unit, (IH Hns), bind_unit, alter_append. reflexivity.
Qed.

Lemma traverseNode_logging r node :
  traversable node = true -> forall parent h,
  traverseNode (logging r) node parent h
  = Return (node, alter (fun log => log ++ expected_log parent node) r h).
Proof.
  pattern node. revert node. apply ASTNode_children_ind;
    try (intros; cbn; unfold push; rewrite alter_append; reflexivity);
    try discriminate.
  - intros c name params IH Hall parent h. cbn. simpl in Hall.
    rewrite (traverseArray_logging r params IH Hall). cbn.
    unfold push. rewrite !alter_append. reflexivity.
  - intros c body IH Hall parent h. cbn. simpl in Hall.
    rewrite (traverseArray_logging r body IH Hall). cbn.
    unfold push. rewrite !alter_append. reflexivity.
Qed.

(** X13.  The order of the visit: on a tree it can walk, the traverser
    calls [enter(node, parent)], then visits the children of the node in
    their order with the node as their parent, then calls
    [exit(node, parent)]; the root is visited with the parent [null].  With
    the logging visitor the array of the log gets exactly the marks of this
    depth-first walk appended, and the tree comes back as it was. *)
Theorem traverser_order (log : ref) (ast : ASTNode) (h : Heap) :
  traversable ast = true ->
  traverser (logging log) ast h
  = Return (ast, alter (fun marks => marks ++ expected_log None ast) log h).
Proof. intros Hwalk. apply traverseNode_logging. exact Hwalk. Qed.

Lemma traverser_order_witness :
  traversable sample_ast = true
  /\ traverser (logging 0) sample_ast [[]]
     = Return (sample_ast,
               alter (fun marks => marks ++ expected_log None sample_ast) 0 [[]]).
Proof.
  split; [reflexivity|]. apply (traverser_order 0 sample_ast [[]]). reflexivity.
Defined.

(** ** The transformer *)

Lemma with_slots_in_mirror nodes :
  Forall (fun node => forall next,
    source_expression (with_slots next node) = true
    /\ mirror (with_slots next node) = mirror node) nodes ->
  forall next,
    forallb source_expression (with_slots_in next nodes) = true
    /\ map mirror (with_slots_in next nodes) = map mirror nodes.
Proof.
  induction 1 as [|node nodes Hnode _ IH]; intros next; [auto|].
  destruct (Hnode next) as (Hs & Hm).
  destruct (IH (next + calls node)) as (IHs & IHm).
  simpl. rewrite Hs, IHs, Hm, IHm. auto.
Qed.

Lemma with_slots_mirror node :
  source_expression node = true ->
  forall next,
    source_expression (with_slots next node) = true
    /\ mirror (with_slots next node) = mirror node.
Proof.
  intros Hsrc. pattern node. revert node Hsrc.
  apply source_expression_ind; try (intros; simpl; auto; fail).
  intros c name params _ IH next.
  destruct (with_slots_in_mirror params IH (S next)) as (Hs & Hm).
  rewrite with_slots_call. simpl. rewrite Hs, Hm. auto.
Qed.

Lemma with_slots_in_placed nodes : forall next,
  forallb source_expression nodes = true ->
  forallb source_expression (with_slots_in next nodes) = true
  /\ map (placed false) (with_slots_in next nodes) = map (placed false) nodes.
Proof.
  induction nodes as [|node nodes IH]; intros next Hsrc; [auto|].
  simpl in Hsrc. apply andb_prop in Hsrc as [Hnode Hnodes].
  destruct (IH (next + calls node) Hnodes) as [IHs IHp].
  destruct (with_slots_mirror node Hnode next) as [Hs Hm].
  simpl. rewrite Hs, IHs, IHp. split; [reflexivity|]. f_equal.
  destruct node; try discriminate; try exact Hm.
  rewrite with_slots_call in *. unfold placed. rewrite Hm. reflexivity.
Qed.

(** X14.  The [_context] that a run leaves on the source tree does not
    disturb a later run: [transformer] called again on the same tree,
    whatever the store then holds, returns the same target tree. *)
Theorem transformer_again (h h' : Heap) (c : option ref) (body : list ASTNode)
    (t : Transformed) :
  forallb source_expression body = true ->
  transformer_run h (ProgramNode c body) = Return t ->
  transformer h' (ast_after t) = Return (newAst t).
Proof.
  intros Hsrc Hrun.
  destruct (transformer_source h c body Hsrc) as (h1 & Hrun' & _).
  rewrite Hrun' in Hrun. injection Hrun as <-. simpl.
  destruct (with_slots_in_placed body (S (length h)) Hsrc) as [Hsrc' Hplaced].
  rewrite (transformer_program h' _ _ Hsrc'), Hplaced. reflexivity.
Qed.

Lemma transformer_again_witness :
  forallb source_expression
    [new_CallExpression "add" [new_NumberLiteral "2"; new_CallExpression "f" []]] = true
  /\ exists t,
       transformer_run []
         (new_ProgramNode
            [new_CallExpression "add" [new_NumberLiteral "2"; new_CallExpression "f" []]])
       = Return t
       /\ transformer [[]; []] (ast_after t) = Return (newAst t).
Proof.
  split; [reflexivity|].
  destruct (transformer_run []
         (new_ProgramNode
            [new_CallExpression "add" [new_NumberLiteral "2"; new_CallExpression "f" []]]))
    as [t| |] eqn:Hrun; try (vm_compute in Hrun; discriminate).
  exists t. split; [reflexivity|].
  apply (transformer_again [] [[]; []] None
           [new_CallExpression "add" [new_NumberLiteral "2"; new_CallExpression "f" []]]);
    [reflexivity|exact Hrun].
Defined.

Lemma traverseArray_entries entries : forall parent rp h,
  forallb (fun node => is_literal node || is_statement node) entries = true ->
  _context parent = Some rp ->
  traverseArray visit entries parent h
  = Return (entries,
            alter (fun array => array ++ flat_map literal_object entries) rp h).
Proof.
  induction entries as [|node entries IH]; intros parent rp h Hall Hctx; simpl.
  - rewrite list_alter_id; [reflexivity|]. intros array. apply app_nil_r.
  - simpl in Hall. apply andb_prop in Hall as [Hnode Hentries].
    assert (Hvisit : visit node (Some parent) h
              = Return (node, alter (fun array => array ++ literal_object node) rp h)).
    { destruct node; try discriminate; cbn; rewrite ?Hctx; cbn; try reflexivity.
      rewrite list_alter_id; [reflexivity|]. intros array. apply app_nil_r. }
    rewrite Hvisit, bind_unit, (IH parent rp _ Hentries Hctx), bind_unit, alter_append.
    reflexivity.
Qed.

Lemma snapshot_literals entries fuel h :
  mapM (snapshot (S fuel) h) (flat_map literal_object entries)
  = Return (map structure (List.filter is_literal entries)).
Proof.
  induction entries as [|node entries IH]; [reflexivity|].
  destruct node; try exact IH.
  - change (mapM (snapshot (S fuel) h)
              (ONumberLiteral value :: flat_map literal_object entries)
            = Return (NumberLiteral None value
                      :: map structure (List.filter is_literal entries))).
    cbn. cbn in IH. rewrite IH. reflexivity.
  - change (mapM (snapshot (S fuel) h)
              (OStringLiteral value :: flat_map literal_object entries)
            = Return (StringLiteral None value
                      :: map structure (List.filter is_literal entries))).
    cbn. cbn in IH. rewrite IH. reflexivity.
Qed.

Lemma placed_entries body :
  forallb source_expression body = true ->
  forallb (fun node => is_literal node || is_statement node)
    (map (placed false) body) = true
  /\ map structure (List.filter is_literal (map (placed false) body))
     = map mirror (List.filter is_literal body).
Proof.
  induction body as [|node body IH]; intros Hsrc; [auto|].
  simpl in Hsrc. apply andb_prop in Hsrc as [Hnode Hbody].
  destruct (IH Hbody) as [IHall IHmap].
  destruct node; try discriminate; simpl; rewrite IHall, ?IHmap; auto.
Qed.

(** X17.  [transformer] is not made for its own output, and does not
    reject it: the visitor has no method for a statement and the traverser
    does not go below one, so a second pass keeps the top-level literals
    and silently drops every top-level call. *)
Theorem transformer_on_its_output (h h' : Heap) (c : option ref)
    (body : list ASTNode) (newAst : ASTNode) :
  forallb source_expression body = true ->
  transformer h (ProgramNode c body) = Return newAst ->
  transformer h' newAst
  = Return (new_ProgramNode (map mirror (List.filter is_literal body))).
Proof.
  intros Hsrc Hfirst.
  rewrite (transformer_program h c body Hsrc) in Hfirst. injection Hfirst as <-.
  destruct (placed_entries body Hsrc) as [Hentries Hmap].
  unfold transformer, transformer_run, alloc, traverser, new_ProgramNode. cbn.
  rewrite (traverseArray_entries (map (placed false) body)
             (ProgramNode (Some (length h')) (map (placed false) body))
             (length h') (h' ++ [[]]) Hentries eq_refl).
  cbn.
  rewrite list_lookup_alter_eq, list_lookup_middle by reflexivity. simpl.
  rewrite length_alter.
  replace (length (h' ++ [[]]) + (length (h' ++ [[]]) + 0) + 2)
    with (S (length (h' ++ [[]]) + (length (h' ++ [[]]) + 0) + 1)) by lia.
  rewrite snapshot_literals, Hmap. reflexivity.
Qed.

Lemma transformer_on_its_output_witness :
  forallb source_expression
    [new_NumberLiteral "1"; new_CallExpression "f" [new_NumberLiteral "2"]] = true
  /\ transformer [] (ProgramNode None
        [new_NumberLiteral "1"; new_CallExpression "f" [new_NumberLiteral "2"]])
     = Return (new_ProgramNode
         [new_NumberLiteral "1";
          new_JsExpressionStatement
            (new_JsCallExpression (new_Identifier "f") [new_NumberLiteral "2"])])
  /\ transformer [[]]
       (new_ProgramNode
         [new_NumberLiteral "1";
          new_JsExpressionStatement
            (new_JsCallExpression (new_Identifier "f") [new_NumberLiteral "2"])])
     = Return (new_ProgramNode (map mirror (List.filter is_literal
         [new_NumberLiteral "1"; new_CallExpression "f" [new_NumberLiteral "2"]]))).
Proof.
  assert (H : transformer [] (ProgramNode None
        [new_NumberLiteral "1"; new_CallExpression "f" [new_NumberLiteral "2"]])
     = Return (new_ProgramNode
         [new_NumberLiteral "1";
          new_JsExpressionStatement
            (new_JsCallExpression (new_Identifier "f") [new_NumberLiteral "2"])]))
    by (vm_compute; reflexivity).
  split; [reflexivity|]. split; [exact H|].
  apply (transformer_on_its_output [] [[]] None
           [new_NumberLiteral "1"; new_CallExpression "f" [new_NumberLiteral "2"]]);
    [reflexivity|exact H].
Defined.

(** ** The code generator *)

Lemma mapM_generate_source body :
  forallb source_expression body = true ->
  mapM generateJsCode body
  = if forallb is_literal body
    then Return (map expression_text body)
    else Throw (Error "NotImplemented").
Proof.
  induction body as [|node body IH]; intros Hsrc; [reflexivity|].
  simpl in Hsrc. apply andb_prop in Hsrc as [Hnode Hbody].
  cbn. fold (mapM generateJsCode body). rewrite (IH Hbody).
  destruct node; try discriminate; simpl;
    try (destruct (forallb is_literal body); reflexivity).
Qed.

(** X15.  The code generator does not accept a tree that was not
    transformed: on a program of literals and calls it throws
    [Error("NotImplemented")] as soon as a top-level expression is a call,
    and returns the literals' texts joined by newlines when there is
    none. *)
Theorem codeGenerator_on_source (c : option ref) (body : list ASTNode) :
  forallb source_expression body = true ->
  codeGenerator (ProgramNode c body)
  = if forallb is_literal body
    then Return (join newline (map expression_text body))
    else Throw (Error "NotImplemented").
Proof.
  intros Hsrc. unfold codeGenerator. cbn. fold (mapM generateJsCode body).
  rewrite (mapM_generate_source body Hsrc).
  destruct (forallb is_literal body); reflexivity.
Qed.

Lemma codeGenerator_on_source_witness :
  forallb source_expression
    [new_NumberLiteral "1"; new_CallExpression "f" [new_NumberLiteral "2"]] = true
  /\ codeGenerator
       (ProgramNode None
          [new_NumberLiteral "1"; new_CallExpression "f" [new_NumberLiteral "2"]])
     = if forallb is_literal
            [new_NumberLiteral "1"; new_CallExpression "f" [new_NumberLiteral "2"]]
       then Return (join newline (map expression_text
              [new_NumberLiteral "1"; new_CallExpression "f" [new_NumberLiteral "2"]]))
       else Throw (Error "NotImplemented").
Proof.
  split; [reflexivity|]. apply codeGenerator_on_source. reflexivity.
Defined.

Lemma ASTNode_full_ind (P : ASTNode -> Prop) :
  (forall c value, P (NumberLiteral c value)) ->
  (forall c value, P (StringLiteral c value)) ->
  (forall c name params, Forall P params -> P (CallExpression c name params)) ->
  (forall c body, Forall P body -> P (ProgramNode c body)) ->
  (forall c name, P (Identifier c name)) ->
  (forall c expression, P expression -> P (JsExpressionStatement c expression)) ->
  (forall c callee args, P callee -> Forall P args ->
     P (JsCallExpression c callee args)) ->
  forall node, P node.
Proof.
  intros Hnum Hstr Hcall Hprog Hid Hstmt Hjs. fix IH 1.
  intros [c v|c v|c name params|c body|c name|c e|c callee args].
  - apply Hnum.
  - apply Hstr.
  - apply Hcall. induction params as [|p params IHparams]; constructor;
      [apply IH|exact IHparams].
  - apply Hprog. induction body as [|p body IHbody]; constructor;
      [apply IH|exact IHbody].
  - apply Hid.
  - apply Hstmt. apply IH.
  - apply Hjs; [apply IH|]. induction args as [|p args IHargs]; constructor;
      [apply IH|exact IHargs].
Qed.

Lemma mapM_generate_structure nodes :
  Forall (fun node => generateJsCode (structure node) = generateJsCode node) nodes ->
  mapM generateJsCode (map structure nodes) = mapM generateJsCode nodes.
Proof.
  induction 1 as [|node nodes Hnode _ IH]; [reflexivity|].
  cbn. fold (mapM generateJsCode (map structure nodes)).
  fold (mapM generateJsCode nodes). rewrite Hnode, IH. reflexivity.
Qed.

(** X16.  The code generator never reads [_context]: a tree and the same
    tree without any [_context] give the same text or the same exception. *)
Theorem generateJsCode_ignores_context (node : ASTNode) :
  generateJsCode (structure node) = generateJsCode node.
Proof.
  pattern node. revert node. apply ASTNode_full_ind; try reflexivity.
  - intros c body IH. cbn. fold (mapM generateJsCode (map structure body)).
    fold (mapM generateJsCode body). rewrite (mapM_generate_structure body IH).
    reflexivity.
  - intros c expression IH. cbn. rewrite IH. reflexivity.
  - intros c callee args IHcallee IHargs. cbn.
    fold (mapM generateJsCode (map structure args)).
    fold (mapM generateJsCode args).
    rewrite IHcallee, (mapM_generate_structure args IHargs). reflexivity.
Qed.

(** ** The pipeline *)

(** X18.  The layout does not matter: two texts that spell the same tokens
    with different whitespace give the same outcome of the compiler, be it
    a text or an exception of the parser. *)
Theorem compiler_layout_independent (h : Heap) (fuel : nat)
    (items items' : list (string * Token.t)) (tail tail' : string) :
  well_spelled items tail = true ->
  well_spelled items' tail' = true ->
  map snd items = map snd items' ->
  String.length (spell items tail) + 2 <= fuel ->
  String.length (spell items' tail') + 2 <= fuel ->
  compiler h fuel (spell items tail) = compiler h fuel (spell items' tail').
Proof.
  intros Hwell Hwell' Hsame Hfuel Hfuel'. unfold compiler.
  rewrite (tokenizer_spell items tail fuel Hwell Hfuel).
  rewrite (tokenizer_spell items' tail' fuel Hwell' Hfuel').
  rewrite Hsame. reflexivity.
Qed.

Lemma compiler_layout_independent_witness :
  well_spelled sample_items " " = true
  /\ well_spelled
       [(" ", Token.mk TokenType.paren "("); (newline, Token.mk TokenType.name "add");
        (" ", Token.mk TokenType.number "2"); (EmptyString, Token.mk TokenType.paren "(");
        (" ", Token.mk TokenType.name "subtract"); (EmptyString, Token.mk TokenType.number "4");
        (newline, Token.mk TokenType.number "2"); (" ", Token.mk TokenType.paren ")");
        (EmptyString, Token.mk TokenType.paren ")")] EmptyString = true
  /\ compiler [] 40 (spell sample_items " ")
     = compiler [] 40
         (spell
            [(" ", Token.mk TokenType.paren "("); (newline, Token.mk TokenType.name "add");
             (" ", Token.mk TokenType.number "2"); (EmptyString, Token.mk TokenType.paren "(");
             (" ", Token.mk TokenType.name "subtract"); (EmptyString, Token.mk TokenType.number "4");
             (newline, Token.mk TokenType.number "2"); (" ", Token.mk TokenType.paren ")");
             (EmptyString, Token.mk TokenType.paren ")")] EmptyString).
Proof.
  split; [reflexivity|]. split; [reflexivity|].
  apply compiler_layout_independent;
    [reflexivity|reflexivity|reflexivity|vm_compute; lia|vm_compute; lia].
Defined.

(** X19.  A text of whitespace only, the empty text included, has no
    tokens and compiles to the empty text. *)
Theorem compiler_blank (h : Heap) (fuel : nat) (input : string) :
  all WHITESPACE input = true ->
  String.length input + 2 <= fuel ->
  tokenizer fuel input = Return []
  /\ compiler h fuel input = Return EmptyString.
Proof.
  intros Hblank Hfuel.
  assert (Htok : tokenizer fuel input = Return []).
  { apply (tokenizer_spell [] input fuel); assumption. }
  split; [exact Htok|].
  apply (compiler_stages h fuel input [] []); [exact Htok| |reflexivity].
  destruct fuel as [|fuel]; [lia|]. reflexivity.
Qed.

Lemma compiler_blank_witness :
  all WHITESPACE (" " +:+ newline) = true
  /\ String.length (" " +:+ newline) + 2 <= 4
  /\ tokenizer 4 (" " +:+ newline) = Return []
  /\ compiler [] 4 (" " +:+ newline) = Return EmptyString.
Proof.
  assert (Hfuel : String.length (" " +:+ newline) + 2 <= 4) by (vm_compute; lia).
  split; [reflexivity|]. split; [exact Hfuel|].
  apply (compiler_blank [] 4 (" " +:+ newline)); [reflexivity|exact Hfuel].
Defined.



(** X21.  The stages after the tokenizer, composed as in [compiler], take
    the tokens of any program of literals and calls, string literals
    included, to the text of its statements: each string literal comes out
    between double quotes, unchanged. *)
Theorem later_stages_on_tokens (h : Heap) (fuel : nat) (body : list ASTNode) :
  forallb source_expression body = true ->
  length (flat_map tokens_of body) + 1 <= fuel ->
  (ast ← parser fuel (flat_map tokens_of body);
   newAst ← transformer h ast;
   codeGenerator newAst)
  = Return (join newline (map statement_text body)).
Proof.
  intros Hsrc Hfuel.
  destruct (structure_program body Hsrc) as [Hsrc' Htext].
  rewrite (parser_tokens_of body fuel Hsrc Hfuel), bind_unit.
  unfold new_ProgramNode at 1.
  rewrite (transformer_program h None _ Hsrc'), bind_unit.
  rewrite (generate_program _ Hsrc'), Htext. reflexivity.
Qed.

Lemma later_stages_on_tokens_witness :
  forallb source_expression
    [new_CallExpression "add" [new_StringLiteral "x"; new_NumberLiteral "1"]] = true
  /\ length (flat_map tokens_of
       [new_CallExpression "add" [new_StringLiteral "x"; new_NumberLiteral "1"]]) + 1 <= 6
  /\ (ast ← parser 6 (flat_map tokens_of
         [new_CallExpression "add" [new_StringLiteral "x"; new_NumberLiteral "1"]]);
      newAst ← transformer [] ast;
      codeGenerator newAst)
     = Return (join newline (map statement_text
         [new_CallExpression "add" [new_StringLiteral "x"; new_NumberLiteral "1"]])).
Proof.
  assert (Hfuel : length (flat_map tokens_of
       [new_CallExpression "add" [new_StringLiteral "x"; new_NumberLiteral "1"]]) + 1 <= 6)
    by (simpl; lia).
  split; [reflexivity|]. split; [exact Hfuel|].
  apply later_stages_on_tokens; [reflexivity|exact Hfuel].
Defined.
